(** * nextdb reader: the lazy query builder and the multi-fragment merge

    A shallow embedding of [src/nextdb/reader.py]: the predicate algebra
    ([NdbColumn], [NdbComputedBoolColumnOpArg], [NdbComputedBoolColumnOpColumn]),
    the plan compiler ([NdbTable._construct_sql]) and the materializer
    ([NdbTable.to_pd]).  Python exceptions are values of [exn]; a function
    that may raise returns a [result]. *)

From Stdlib Require Import List String Ascii ZArith Bool Lia Permutation.
From Stdlib Require Import DecimalString OrderedTypeEx.
Import ListNotations.
Open Scope list_scope.
Open Scope string_scope.

(** ** Exceptions and results *)

(** Failures of the execution engine (DuckDB), as far as the reader can
    provoke them through the statements it assembles. *)
Inductive duckdb_error : Type :=
| ParserError                      (* the statement text is not SQL *)
| BinderError (column : string).   (* a referenced column does not exist *)

Inductive exn : Type :=
| ValueError (msg : string)
| NotImplementedError (msg : string)
| TypeError (msg : string)
| KeyError (labels : list string)          (* pandas: df[labels] *)
| DuckDBError (e : duckdb_error).

Inductive result (A : Type) : Type :=
| Ok (a : A)
| Raise (e : exn).
Arguments Ok {A} a.
Arguments Raise {A} e.

Definition bind {A B} (r : result A) (k : A -> result B) : result B :=
  match r with
  | Ok a => k a
  | Raise e => Raise e
  end.

Notation "x <- r ;; k" := (bind r (fun x => k))
  (at level 61, r at next level, right associativity).

Definition is_ok {A} (r : result A) : bool :=
  match r with Ok _ => true | Raise _ => false end.

(** The error kinds of the specification, as the exceptions the source
    raises for them. *)
Definition ProjectionWidensSelection (offending : list string) : exn :=
  ValueError ("Tried to select columns " ++ String.concat ", " offending
              ++ " after already filtering them out").

Definition CrossTableReference : exn :=
  ValueError
    "Using a series from a different table in a row selector is not supported".

Definition HeterogeneousDeletes : exn :=
  NotImplementedError "Deletes on different sets of columns is not supported".

Definition UnknownFragmentKind (kind : string) : exn :=
  ValueError ("data_file_type " ++ kind ++ " is not supported").

(** ** String helpers standing for Python built-ins *)

(** [str.replace old new] for a non-empty [old]: occurrences are replaced
    left to right without overlap; [skip] counts the characters of a matched
    occurrence still to be dropped. *)
Fixpoint replace_from (old new : string) (skip : nat) (s : string) : string :=
  match s with
  | EmptyString => EmptyString
  | String c s' =>
      match skip with
      | S k => replace_from old new k s'
      | O =>
          if String.prefix old s
          then new ++ replace_from old new (String.length old - 1) s'
          else String c (replace_from old new 0 s')
      end
  end.

Definition replace (old new s : string) : string := replace_from old new 0 s.

(** [str(n)] for an [int]. *)
Definition str_of_int (z : Z) : string := NilZero.string_of_int (Z.to_int z).

(** [a in xs] for a list of strings. *)
Definition mem (a : string) (xs : list string) : bool :=
  existsb (String.eqb a) xs.

(** Some strings used in internal sql construction. *)
Definition _table_name_placeholder : string :=
  "[!!__to_be_replaced_table_name__!!]".
Definition _indicator_column_name : string := "__ndb_reserved_indicator__".

(** ** Comparison literals

    [COMPARISON_LITERAL_TYPE = Union[str, datetime.datetime, int, float]].
    A [datetime] is carried by the text [str()] gives for it.  Floats take
    the same branch as integers in [_single_arg_to_string] and are left out
    of the model. *)
Inductive literal : Type :=
| LStr (s : string)
| LDatetime (text : string)
| LInt (z : Z).

(** ** The predicate algebra *)

(** The six binary comparison operators of [NdbColumn]. *)
Inductive scalar_op : Type := OpEq | OpNe | OpGt | OpLt | OpGe | OpLe.

(** The pair ([_op], [_arg]) of a [NdbComputedBoolColumnOpArg], as the
    methods of [NdbColumn] build it from arguments of the annotated types and
    as [__invert__] transforms it: a scalar operator with one literal,
    [BETWEEN]/[NOT BETWEEN] with a pair, [IN]/[NOT IN] with the items. *)
Inductive op_arg : Type :=
| Scalar (op : scalar_op) (arg : literal)
| Between (a b : literal)
| NotBetween (a b : literal)
| In_ (items : list literal)
| NotIn (items : list literal).

Inductive bool_op : Type := AND | OR.

(** [NdbBoolColumn] with its two concrete classes.  Of the [NdbTable] a leaf
    refers to, only [_version_number] is ever read. *)
Inductive NdbBoolColumn : Type :=
| NdbComputedBoolColumnOpArg
    (_ndb_table_version : Z) (_column_name : string) (_op_arg : op_arg)
| NdbComputedBoolColumnOpColumn
    (_series_a _series_b : NdbBoolColumn) (_op : bool_op).

(** [NdbColumn]: a column of a table handle. *)
Record NdbColumn : Type := {
  col_table_version : Z;
  col_name : string
}.

Definition compare_with (c : NdbColumn) (op : scalar_op) (other : literal)
  : NdbBoolColumn :=
  NdbComputedBoolColumnOpArg (col_table_version c) (col_name c)
                             (Scalar op other).

Definition __eq__ c other := compare_with c OpEq other.
Definition __ne__ c other := compare_with c OpNe other.
Definition __gt__ c other := compare_with c OpGt other.
Definition __lt__ c other := compare_with c OpLt other.
Definition __ge__ c other := compare_with c OpGe other.
Definition __le__ c other := compare_with c OpLe other.

Definition between (c : NdbColumn) (a b : literal) : NdbBoolColumn :=
  NdbComputedBoolColumnOpArg (col_table_version c) (col_name c) (Between a b).

Definition isin (c : NdbColumn) (items : list literal) : NdbBoolColumn :=
  NdbComputedBoolColumnOpArg (col_table_version c) (col_name c) (In_ items).

Definition _interpret_as_bool (c : NdbColumn) : NdbBoolColumn :=
  __eq__ c (LStr "TRUE").

(** [__and__] and [__or__] of the two predicate classes. *)
Definition __and__ (p other : NdbBoolColumn) : NdbBoolColumn :=
  NdbComputedBoolColumnOpColumn p other AND.

Definition __or__ (p other : NdbBoolColumn) : NdbBoolColumn :=
  NdbComputedBoolColumnOpColumn p other OR.

(** [NdbComputedBoolColumnOpArg.__invert__] on the operator. *)
Definition invert_scalar_op (op : scalar_op) : scalar_op :=
  match op with
  | OpEq => OpNe
  | OpNe => OpEq
  | OpGt => OpLe
  | OpLe => OpGt
  | OpLt => OpGe
  | OpGe => OpLt
  end.

Definition invert_op_arg (oa : op_arg) : op_arg :=
  match oa with
  | Scalar op arg => Scalar (invert_scalar_op op) arg
  | Between a b => NotBetween a b
  | NotBetween a b => Between a b
  | In_ items => NotIn items
  | NotIn items => In_ items
  end.

(** [__invert__] of both classes. *)
Fixpoint __invert__ (p : NdbBoolColumn) : NdbBoolColumn :=
  match p with
  | NdbComputedBoolColumnOpArg v c oa =>
      NdbComputedBoolColumnOpArg v c (invert_op_arg oa)
  | NdbComputedBoolColumnOpColumn a b AND =>
      NdbComputedBoolColumnOpColumn (__invert__ a) (__invert__ b) OR
  | NdbComputedBoolColumnOpColumn a b OR =>
      NdbComputedBoolColumnOpColumn (__invert__ a) (__invert__ b) AND
  end.

(** [NdbColumn.__and__], [__or__] and [__invert__]: the column is first
    taken as the predicate [column = 'TRUE']. *)
Definition column_and (c : NdbColumn) (other : NdbBoolColumn) : NdbBoolColumn :=
  NdbComputedBoolColumnOpColumn (_interpret_as_bool c) other AND.

Definition column_or (c : NdbColumn) (other : NdbBoolColumn) : NdbBoolColumn :=
  NdbComputedBoolColumnOpColumn (_interpret_as_bool c) other OR.

Definition column_invert (c : NdbColumn) : NdbBoolColumn :=
  __invert__ (_interpret_as_bool c).

(** ** Rendering a predicate to a where clause *)

Definition scalar_op_string (op : scalar_op) : string :=
  match op with
  | OpEq => "="
  | OpNe => "!="
  | OpGt => ">"
  | OpLt => "<"
  | OpGe => ">="
  | OpLe => "<="
  end.

Definition bool_op_string (op : bool_op) : string :=
  match op with AND => "AND" | OR => "OR" end.

(** [_single_arg_to_string]: strings and datetimes between single quotes,
    verbatim; anything else through [str]. *)
Definition _single_arg_to_string (arg : literal) : string :=
  match arg with
  | LStr s => "'" ++ s ++ "'"
  | LDatetime text => "'" ++ text ++ "'"
  | LInt z => str_of_int z
  end.

(** The double-quote character that surrounds column names. *)
Definition dquote : string := String (ascii_of_nat 34) EmptyString.

(** [f'{_table_name_placeholder}."{column_name}"']. *)
Definition quoted_column (column_name : string) : string :=
  _table_name_placeholder ++ "." ++ dquote ++ column_name ++ dquote.

(** [NdbComputedBoolColumnOpArg._construct_where_clause] once the version
    test has passed. *)
Definition render_op_arg (column_name : string) (oa : op_arg) : string :=
  match oa with
  | Between a b =>
      "(" ++ quoted_column column_name ++ " BETWEEN "
          ++ _single_arg_to_string a ++ " AND "
          ++ _single_arg_to_string b ++ ")"
  | NotBetween a b =>
      "(" ++ quoted_column column_name ++ " NOT BETWEEN "
          ++ _single_arg_to_string a ++ " AND "
          ++ _single_arg_to_string b ++ ")"
  | In_ items =>
      "(" ++ quoted_column column_name ++ " IN ("
          ++ String.concat ", " (map _single_arg_to_string items) ++ "))"
  | NotIn items =>
      "(" ++ quoted_column column_name ++ " NOT IN ("
          ++ String.concat ", " (map _single_arg_to_string items) ++ "))"
  | Scalar op arg =>
      "(" ++ quoted_column column_name ++ " " ++ scalar_op_string op ++ " "
          ++ _single_arg_to_string arg ++ ")"
  end.

(** [_construct_where_clause] of both classes, against the version number of
    the table being materialized.  The f-string of an internal node renders
    [_series_a] first, so its exception wins. *)
Fixpoint _construct_where_clause (p : NdbBoolColumn) (version_number : Z)
  : result string :=
  match p with
  | NdbComputedBoolColumnOpArg v column_name oa =>
      if negb (v =? version_number)%Z
      then Raise CrossTableReference
      else Ok (render_op_arg column_name oa)
  | NdbComputedBoolColumnOpColumn a b op =>
      sa <- _construct_where_clause a version_number ;;
      sb <- _construct_where_clause b version_number ;;
      Ok ("(" ++ sa ++ " " ++ bool_op_string op ++ " " ++ sb ++ ")")
  end.

(** ** Relations

    A pandas [DataFrame] as the reader uses it: column labels and rows of
    cells.  The index is not modelled.  A cell is an integer, a string or
    missing ([NaN] in pandas, [NULL] in the engine). *)
Inductive value : Type :=
| VInt (z : Z)
| VStr (s : string)
| VNull.

Record DataFrame : Type := {
  columns : list string;
  rows : list (list value)
}.

(** [pd.DataFrame()] *)
Definition empty_frame : DataFrame := {| columns := []; rows := [] |}.

(** [len(df)] *)
Definition len (df : DataFrame) : nat := List.length (rows df).

(** ** Table handles *)

(** Modelled from the spec: [TableSchema] is declared in
    [readerwriter_shared], which is not among the sources; the reader only
    reads [deduplication_keys], which "could be None". *)
Record TableSchema : Type := {
  deduplication_keys : option (list string)
}.

(** Modelled from the spec: [DataFileEntry] is declared in
    [readerwriter_shared]: a kind and a location.  The location is
    represented by [data_file], the relation the columnar reader yields for
    it ([conn.from_parquet(data_file_name)]). *)
Record DataFileEntry : Type := {
  data_file_type : string;
  data_file : DataFrame
}.

Inductive Op : Type :=
| _SelectColumnsOp (columns_to_select : list string)
| _SelectRowsOp (filter_column : NdbBoolColumn).

Record NdbTable : Type := {
  _version_number : Z;
  _table_schema : TableSchema;
  _data_list : list DataFileEntry;
  _ops : list Op
}.

(** [NdbTable.__getitem__] for a list of names, a predicate and a column
    taken as a boolean; [t['c']] is [column t "c"]. *)
Definition with_op (t : NdbTable) (o : Op) : NdbTable :=
  {| _version_number := _version_number t;
     _table_schema := _table_schema t;
     _data_list := _data_list t;
     _ops := (_ops t ++ [o])%list |}.

Definition column (t : NdbTable) (name : string) : NdbColumn :=
  {| col_table_version := _version_number t; col_name := name |}.

Definition select_columns (t : NdbTable) (names : list string) : NdbTable :=
  with_op t (_SelectColumnsOp names).

Definition select_rows (t : NdbTable) (p : NdbBoolColumn) : NdbTable :=
  with_op t (_SelectRowsOp p).

Definition select_bool_column (t : NdbTable) (c : NdbColumn) : NdbTable :=
  select_rows t (_interpret_as_bool c).

(** ** The plan compiler: [NdbTable._construct_sql] *)

(** [[op.columns_to_select for op in self._ops if isinstance(op, _SelectColumnsOp)]] *)
Fixpoint column_args (ops : list Op) : list (list string) :=
  match ops with
  | [] => []
  | _SelectColumnsOp cols :: ops' => cols :: column_args ops'
  | _SelectRowsOp _ :: ops' => column_args ops'
  end.

(** [[op.filter_column for op in self._ops if isinstance(op, _SelectRowsOp)]] *)
Fixpoint row_args (ops : list Op) : list NdbBoolColumn :=
  match ops with
  | [] => []
  | _SelectColumnsOp _ :: ops' => row_args ops'
  | _SelectRowsOp p :: ops' => p :: row_args ops'
  end.

(** [[a for a in next_columns if a not in curr_columns]] *)
Definition columns_not_previously_selected
  (curr_columns next_columns : list string) : list string :=
  filter (fun a => negb (mem a curr_columns)) next_columns.

(** The loop [for next_columns in column_args[1:]] with its running
    [curr_columns]. *)
Fixpoint narrow_columns (curr_columns : list string)
  (rest : list (list string)) : result (list string) :=
  match rest with
  | [] => Ok curr_columns
  | next_columns :: rest' =>
      let offending :=
        columns_not_previously_selected curr_columns next_columns in
      if (0 <? List.length offending)%nat
      then Raise (ProjectionWidensSelection offending)
      else narrow_columns next_columns rest'
  end.

(** What [_construct_sql] returns: the two clauses, each with the table-name
    placeholder.  [plan_columns] and [plan_filter] keep the column list and
    the predicate the two strings were rendered from ([None] for [.*] and
    for [TRUE]); the engine model below evaluates these rather than parsing
    the text. *)
Record plan : Type := {
  select_clause : string;
  where_clause : string;
  plan_columns : option (list string);
  plan_filter : option NdbBoolColumn
}.

(** The column part of [_construct_sql]. *)
Definition compile_select (ops : list Op)
  : result (string * option (list string)) :=
  match column_args ops with
  | [] => Ok ("SELECT " ++ _table_name_placeholder ++ ".*", None)
  | first :: rest =>
      curr_columns <- narrow_columns first rest ;;
      Ok ("SELECT " ++ String.concat ", " (map quoted_column curr_columns),
          Some curr_columns)
  end.

(** The row part.  The loop folds the predicates into [curr_filter_column],
    and the clause is then rendered from [row_args[0]]. *)
Definition compile_where (ops : list Op) (version_number : Z)
  : result (string * option NdbBoolColumn) :=
  match row_args ops with
  | [] => Ok ("TRUE", None)
  | first :: rest =>
      let curr_filter_column :=
        fold_left (fun curr next => NdbComputedBoolColumnOpColumn curr next AND)
                  rest first in
      w <- _construct_where_clause first version_number ;;
      Ok (w, Some first)
  end.

Definition _construct_sql (t : NdbTable) : result plan :=
  s <- compile_select (_ops t) ;;
  w <- compile_where (_ops t) (_version_number t) ;;
  Ok {| select_clause := fst s; where_clause := fst w;
        plan_columns := snd s; plan_filter := snd w |}.

(** ** pandas operations the materializer uses *)

(** The cell of [row] under label [c], if the frame has that label (the
    first one, should a label repeat). *)
Fixpoint cell (cols : list string) (row : list value) (c : string)
  : option value :=
  match cols, row with
  | c' :: cols', v :: row' => if c' =? c then Some v else cell cols' row' c
  | _, _ => None
  end.

Definition cell_or_null (cols : list string) (row : list value) (c : string)
  : value :=
  match cell cols row c with
  | Some v => v
  | None => VNull
  end.

(** The labels of [acc] followed by the new labels of [cols], in order of
    first appearance. *)
Fixpoint union_columns (acc cols : list string) : list string :=
  match cols with
  | [] => acc
  | c :: cols' =>
      union_columns (if mem c acc then acc else (acc ++ [c])%list) cols'
  end.

(** The rows of [df] laid out under the labels [cols]; a label [df] lacks
    gives a missing cell. *)
Definition reindex (cols : list string) (df : DataFrame) : list (list value) :=
  map (fun row => map (cell_or_null (columns df) row) cols) (rows df).

(** [pd.concat(frames)]: the union of the labels, the rows one frame after
    the other. *)
Definition pd_concat (frames : list DataFrame) : DataFrame :=
  let cols := fold_left union_columns (map columns frames) [] in
  {| columns := cols; rows := flat_map (reindex cols) frames |}.

(** [df[labels]] for a list of labels: [KeyError] when one is missing. *)
Definition getitem (df : DataFrame) (labels : list string)
  : result DataFrame :=
  match filter (fun c => negb (mem c (columns df))) labels with
  | [] => Ok {| columns := labels; rows := reindex labels df |}
  | missing => Raise (KeyError missing)
  end.

Fixpoint set_cell (cols : list string) (row : list value) (c : string)
  (v : value) : list value :=
  match cols, row with
  | c' :: cols', x :: row' =>
      if c' =? c then v :: row' else x :: set_cell cols' row' c v
  | _, _ => row
  end.

(** [df.assign] with the label [c] as keyword, and [df[c] = v]: a constant
    column, overwritten when present and appended otherwise. *)
Definition assign (df : DataFrame) (c : string) (v : value) : DataFrame :=
  if mem c (columns df)
  then {| columns := columns df;
          rows := map (fun row => set_cell (columns df) row c v) (rows df) |}
  else {| columns := (columns df ++ [c])%list;
          rows := map (fun row => (row ++ [v])%list) (rows df) |}.

(** [sorted(labels)]: insertion sort by [String.leb], the order of Python
    strings on code points. *)
Fixpoint insert_sorted (a : string) (l : list string) : list string :=
  match l with
  | [] => [a]
  | b :: l' => if String.leb a b then a :: l else b :: insert_sorted a l'
  end.

Fixpoint sorted (l : list string) : list string :=
  match l with
  | [] => []
  | a :: l' => insert_sorted a (sorted l')
  end.

Definition list_string_eqb (a b : list string) : bool :=
  if list_eq_dec string_dec a b then true else false.

(** ** The execution engine

    DuckDB is an external collaborator.  The materializer hands it one
    statement per WRITE fragment: a selection over the fragment, left-joined
    with the accumulated relations and restricted to the rows whose
    indicator is [NULL] on each, that is an anti-join, and restricted by the
    where clause.

    [execute] gives the relational meaning of that statement, under these
    assumptions: rows come back in fragment order; an [ON] with no condition
    and a select list with no column are rejected by the parser; a column
    reference that does not resolve is rejected by the binder, whatever the
    rows; comparisons follow SQL's three-valued logic.

    The model is simpler than the engine in three respects.  It compares
    labels exactly and answers under the names of the select list, where
    DuckDB ignores case and answers under the fragment's own labels,
    renaming one that is repeated.  It takes a comparison between an integer
    and a string for unknown, where DuckDB casts the literal, or refuses to.
    It evaluates the predicate as it was built, where DuckDB parses its
    rendering, in which names and literals stand unescaped.  [in_domain],
    further down, singles out the inputs on which none of this makes a
    difference; the properties that depend on it assume it. *)

(** One [LEFT JOIN other ON t.c = other.c AND ...] kept where
    [other.indicator IS NULL]. *)
Record anti_join : Type := {
  other : DataFrame;
  on : list string
}.

(** A statement: the text the source assembles, and its parts. *)
Record statement : Type := {
  sql : string;
  from : DataFrame;
  projection : option (list string);
  joins : list anti_join;
  restriction : option NdbBoolColumn
}.

Definition and3 (a b : option bool) : option bool :=
  match a, b with
  | Some false, _ | _, Some false => Some false
  | Some true, Some true => Some true
  | _, _ => None
  end.

Definition or3 (a b : option bool) : option bool :=
  match a, b with
  | Some true, _ | _, Some true => Some true
  | Some false, Some false => Some false
  | _, _ => None
  end.

Definition not3 (a : option bool) : option bool := option_map negb a.

Definition compare_value (v : value) (l : literal) : option comparison :=
  match v, l with
  | VInt x, LInt y => Some (x ?= y)%Z
  | VStr x, LStr y => Some (String.compare x y)
  | VStr x, LDatetime y => Some (String.compare x y)
  | _, _ => None
  end.

Definition holds (op : scalar_op) (c : comparison) : bool :=
  match op, c with
  | OpEq, Eq => true
  | OpNe, (Lt | Gt) => true
  | OpGt, Gt => true
  | OpLt, Lt => true
  | OpGe, (Eq | Gt) => true
  | OpLe, (Eq | Lt) => true
  | _, _ => false
  end.

Definition eval_scalar (op : scalar_op) (v : value) (l : literal)
  : option bool :=
  option_map (holds op) (compare_value v l).

Definition eval_between (v : value) (a b : literal) : option bool :=
  and3 (eval_scalar OpGe v a) (eval_scalar OpLe v b).

Definition eval_in (v : value) (items : list literal) : option bool :=
  fold_right (fun l acc => or3 (eval_scalar OpEq v l) acc) (Some false) items.

Definition eval_op_arg (v : value) (oa : op_arg) : option bool :=
  match oa with
  | Scalar op arg => eval_scalar op v arg
  | Between a b => eval_between v a b
  | NotBetween a b => not3 (eval_between v a b)
  | In_ items => eval_in v items
  | NotIn items => not3 (eval_in v items)
  end.

(** The truth value of a where clause on one row of the fragment. *)
Fixpoint eval_where (cols : list string) (row : list value)
  (p : NdbBoolColumn) : option bool :=
  match p with
  | NdbComputedBoolColumnOpArg _ c oa =>
      eval_op_arg (cell_or_null cols row c) oa
  | NdbComputedBoolColumnOpColumn a b AND =>
      and3 (eval_where cols row a) (eval_where cols row b)
  | NdbComputedBoolColumnOpColumn a b OR =>
      or3 (eval_where cols row a) (eval_where cols row b)
  end.

Definition passes (cols : list string) (row : list value)
  (restriction : option NdbBoolColumn) : bool :=
  match restriction with
  | None => true
  | Some p =>
      match eval_where cols row p with
      | Some true => true
      | _ => false
      end
  end.

(** SQL equality of two cells: never true on [NULL]. *)
Definition sql_equal (a b : value) : bool :=
  match a, b with
  | VInt x, VInt y => (x =? y)%Z
  | VStr x, VStr y => (x =? y)
  | _, _ => false
  end.

(** Whether [row] of the fragment finds a partner in [j]. *)
Definition matched (cols : list string) (row : list value) (j : anti_join)
  : bool :=
  existsb
    (fun partner =>
       forallb (fun c => sql_equal (cell_or_null cols row c)
                                   (cell_or_null (columns (other j)) partner c))
               (on j))
    (rows (other j)).

(** The columns a where clause refers to. *)
Fixpoint referenced (p : NdbBoolColumn) : list string :=
  match p with
  | NdbComputedBoolColumnOpArg _ c _ => [c]
  | NdbComputedBoolColumnOpColumn a b _ => (referenced a ++ referenced b)%list
  end.

(** The first label of [wanted] that [cols] lacks. *)
Definition unresolved (cols wanted : list string) : option string :=
  find (fun c => negb (mem c cols)) wanted.

Definition join_references (j : anti_join) (cols : list string)
  : option string :=
  match unresolved cols (on j) with
  | Some c => Some c
  | None => unresolved (columns (other j)) (on j)
  end.

Fixpoint first_some {A B} (f : A -> option B) (l : list A) : option B :=
  match l with
  | [] => None
  | a :: l' => match f a with Some b => Some b | None => first_some f l' end
  end.

(** Parsing, then binding (joins, where clause, select list). *)
Definition check_statement (st : statement) : result unit :=
  if existsb (fun j => (List.length (on j) =? 0)%nat) (joins st)
     || match projection st with Some [] => true | _ => false end
  then Raise (DuckDBError ParserError)
  else
    match first_some (fun j => join_references j (columns (from st)))
                     (joins st) with
    | Some c => Raise (DuckDBError (BinderError c))
    | None =>
        match unresolved (columns (from st))
                (match restriction st with
                 | Some p => referenced p
                 | None => []
                 end) with
        | Some c => Raise (DuckDBError (BinderError c))
        | None =>
            match unresolved (columns (from st))
                    (match projection st with
                     | Some cols => cols
                     | None => []
                     end) with
            | Some c => Raise (DuckDBError (BinderError c))
            | None => Ok tt
            end
        end
    end.

Definition kept (st : statement) (row : list value) : bool :=
  forallb (fun j => negb (matched (columns (from st)) row j)) (joins st)
  && passes (columns (from st)) row (restriction st).

(** The cells of a fragment row that the select list keeps. *)
Definition project_row (projection : option (list string))
  (cols : list string) (row : list value) : list value :=
  match projection with
  | None => row
  | Some wanted => map (cell_or_null cols row) wanted
  end.

(** [conn.execute(sql); conn.fetchdf()] *)
Definition execute (st : statement) : result DataFrame :=
  _ <- check_statement st ;;
  Ok {| columns := match projection st with
                   | Some wanted => wanted
                   | None => columns (from st)
                   end;
        rows := map (project_row (projection st) (columns (from st)))
                    (filter (kept st) (rows (from st))) |}.

(** ** The materializer: [NdbTable.to_pd] *)

(** The three locals the loop updates. *)
Record merge_state : Type := {
  partition_results : list DataFrame;
  deduplication_keys_seen : DataFrame;
  deletes : DataFrame
}.

Definition initial_state : merge_state :=
  {| partition_results := [];
     deduplication_keys_seen := empty_frame;
     deletes := empty_frame |}.

(** [" AND ".join(f"{table_name}.{c} = {other}.{c}" for c in cols)] *)
Definition join_condition (table_name other_name : string)
  (cols : list string) : string :=
  String.concat " AND "
    (map (fun c => table_name ++ "." ++ c ++ " = " ++ other_name ++ "." ++ c)
         cols).

(** [for c in deduplication_keys] *)
Definition iterate_keys (keys : option (list string)) : result (list string) :=
  match keys with
  | Some ks => Ok ks
  | None => Raise (TypeError "'NoneType' object is not iterable")
  end.

(** [[c for c in deletes.columns if c != _indicator_column_name]] *)
Definition delete_columns (deletes : DataFrame) : list string :=
  filter (fun c => negb (c =? _indicator_column_name)) (columns deletes).

(** The statement for the WRITE fragment at position [i] of the reversed
    data list, one of four shapes by the emptiness of the two accumulators. *)
Definition write_statement (p : plan) (keys : option (list string))
  (i : nat) (fragment : DataFrame) (s : merge_state) : result statement :=
  let table_name := "t" ++ str_of_int (Z.of_nat i) in
  let select_ := replace _table_name_placeholder table_name (select_clause p) in
  let where_ := replace _table_name_placeholder table_name (where_clause p) in
  let ds := {| other := deletes s; on := delete_columns (deletes s) |} in
  let build text js :=
    {| sql := text; from := fragment; projection := plan_columns p;
       joins := js; restriction := plan_filter p |} in
  if (len (deduplication_keys_seen s) =? 0)%nat then
    if (len (deletes s) =? 0)%nat then
      Ok (build (select_ ++ " FROM " ++ table_name ++ " WHERE " ++ where_) [])
    else
      Ok (build (select_ ++ " FROM " ++ table_name ++ " LEFT JOIN ds ON "
                 ++ join_condition table_name "ds" (delete_columns (deletes s))
                 ++ " WHERE ds." ++ _indicator_column_name ++ " IS NULL AND "
                 ++ where_)
                [ds])
  else
    if (len (deletes s) =? 0)%nat then
      ks <- iterate_keys keys ;;
      Ok (build (select_ ++ " FROM " ++ table_name ++ " LEFT JOIN pks ON "
                 ++ join_condition table_name "pks" ks
                 ++ " WHERE pks." ++ _indicator_column_name ++ " IS NULL AND "
                 ++ where_)
                [{| other := deduplication_keys_seen s; on := ks |}])
    else
      ks <- iterate_keys keys ;;
      Ok (build (select_ ++ " FROM " ++ table_name ++ " LEFT JOIN ds ON "
                 ++ join_condition table_name "ds" (delete_columns (deletes s))
                 ++ " LEFT JOIN pks ON "
                 ++ join_condition table_name "pks" ks
                 ++ " WHERE ds." ++ _indicator_column_name ++ " IS NULL AND pks."
                 ++ _indicator_column_name ++ " IS NULL AND " ++ where_)
                [ds; {| other := deduplication_keys_seen s; on := ks |}]).

(** The branch [data_file_type == "write"]. *)
Definition step_write (p : plan) (keys : option (list string)) (i : nat)
  (fragment : DataFrame) (s : merge_state) : result merge_state :=
  st <- write_statement p keys i fragment s ;;
  df <- execute st ;;
  let results := (partition_results s ++ [df])%list in
  match keys with
  | Some ks =>
      key_frame <- getitem df ks ;;
      Ok {| partition_results := results;
            deduplication_keys_seen :=
              pd_concat [deduplication_keys_seen s;
                         assign key_frame _indicator_column_name (VInt 1)];
            deletes := deletes s |}
  | None =>
      Ok {| partition_results := results;
            deduplication_keys_seen := deduplication_keys_seen s;
            deletes := deletes s |}
  end.

(** The branch [data_file_type == "delete"]. *)
Definition step_delete (fragment : DataFrame) (s : merge_state)
  : result merge_state :=
  let d := assign fragment _indicator_column_name (VInt 1) in
  if (0 <? len (deletes s))%nat
     && negb (list_string_eqb (sorted (columns (deletes s)))
                              (sorted (columns d)))
  then Raise HeterogeneousDeletes
  else Ok {| partition_results := partition_results s;
             deduplication_keys_seen := deduplication_keys_seen s;
             deletes := pd_concat [deletes s; d] |}.

(** One iteration of the loop. *)
Definition step (p : plan) (keys : option (list string)) (i : nat)
  (e : DataFileEntry) (s : merge_state) : result merge_state :=
  if data_file_type e =? "write" then step_write p keys i (data_file e) s
  else if data_file_type e =? "delete" then step_delete (data_file e) s
  else Raise (UnknownFragmentKind (data_file_type e)).

(** [for i, data_file in enumerate(files)], from index [i]. *)
Fixpoint merge_loop (p : plan) (keys : option (list string)) (i : nat)
  (files : list DataFileEntry) (s : merge_state) : result merge_state :=
  match files with
  | [] => Ok s
  | e :: files' =>
      s' <- step p keys i e s ;;
      merge_loop p keys (S i) files' s'
  end.

(** "put the results together" *)
Definition put_together (results : list DataFrame) : DataFrame :=
  if (List.length results =? 0)%nat then empty_frame else pd_concat results.

Definition to_pd (t : NdbTable) : result DataFrame :=
  p <- _construct_sql t ;;
  s <- merge_loop p (deduplication_keys (_table_schema t)) 0
                  (rev (_data_list t)) initial_state ;;
  Ok (put_together (rev (partition_results s))).

(** ** Scenarios of the specification, run on the model *)

Definition write_entry (cols : list string) (rs : list (list value))
  : DataFileEntry :=
  {| data_file_type := "write"; data_file := {| columns := cols; rows := rs |} |}.

Definition delete_entry (cols : list string) (rs : list (list value))
  : DataFileEntry :=
  {| data_file_type := "delete"; data_file := {| columns := cols; rows := rs |} |}.

Definition table (version : Z) (keys : option (list string))
  (files : list DataFileEntry) : NdbTable :=
  {| _version_number := version;
     _table_schema := {| deduplication_keys := keys |};
     _data_list := files;
     _ops := [] |}.

Definition S1_table : NdbTable :=
  select_columns
    (table 1 None
       [write_entry ["id"; "a"; "b"]
          [[VInt 1; VInt 10; VStr "x"]; [VInt 2; VInt 20; VStr "y"]]])
    ["a"; "b"].

Definition S2_table : NdbTable :=
  table 1 (Some ["id"])
    [write_entry ["id"; "v"] [[VInt 1; VInt 100]; [VInt 2; VInt 200]];
     write_entry ["id"; "v"] [[VInt 1; VInt 101]; [VInt 3; VInt 300]]].

Definition S3_table : NdbTable :=
  table 1 None
    [write_entry ["id"; "a"] [[VInt 1; VInt 10]; [VInt 2; VInt 20]];
     delete_entry ["id"] [[VInt 1]];
     write_entry ["id"; "a"] [[VInt 3; VInt 30]]].

Definition S4_table : NdbTable :=
  table 1 (Some ["id"])
    [write_entry ["id"; "v"] [[VInt 1; VInt 100]];
     delete_entry ["id"] [[VInt 1]];
     write_entry ["id"; "v"] [[VInt 1; VInt 200]; [VInt 2; VInt 20]]].

Definition S5_table : NdbTable :=
  let t := table 1 None
             [write_entry ["t"; "x"]
                [[VStr "2024-01-01"; VInt 5]; [VStr "2024-06-01"; VInt 7];
                 [VStr "2025-01-01"; VInt 9]]] in
  select_rows t (between (column t "x") (LInt 6) (LInt 8)).

Definition S6_table : NdbTable :=
  let t := table 1 None
             [write_entry ["a"; "b"]
                [[VInt 1; VInt 1]; [VInt 1; VInt 2]; [VInt 2; VInt 1]]] in
  select_rows t
    (__invert__ (__and__ (__eq__ (column t "a") (LInt 1))
                         (__eq__ (column t "b") (LInt 1)))).

(** ** The folds as the specification words them *)

(** Projection folding: walk the ops in append order with a current column
    set [C], [None] standing for "all"; a [ProjectColumns] with a name
    outside [C] fails with the offending names, otherwise [C] becomes its
    columns. *)
Fixpoint projection_walk (C : option (list string)) (ops : list Op)
  : result (option (list string)) :=
  match ops with
  | [] => Ok C
  | _SelectRowsOp _ :: ops' => projection_walk C ops'
  | _SelectColumnsOp cols :: ops' =>
      match C with
      | None => projection_walk (Some cols) ops'
      | Some current =>
          match filter (fun a => negb (mem a current)) cols with
          | [] => projection_walk (Some cols) ops'
          | offending => Raise (ProjectionWidensSelection offending)
          end
      end
  end.

Definition projection_clause (C : option (list string)) : string :=
  match C with
  | None => "SELECT " ++ _table_name_placeholder ++ ".*"
  | Some cols => "SELECT " ++ String.concat ", " (map quoted_column cols)
  end.

(** The columns of the last [ProjectColumns] op, if there is one. *)
Definition last_projection (ops : list Op) : option (list string) :=
  last (map Some (column_args ops)) None.

(** Predicate folding: the left-associative conjunction of the predicates,
    [None] for the literal truth. *)
Definition conjunction (predicates : list NdbBoolColumn)
  : option NdbBoolColumn :=
  match predicates with
  | [] => None
  | first :: rest => Some (fold_left __and__ rest first)
  end.

(** ** The merge as the specification words it *)

Definition is_write (e : DataFileEntry) : bool := data_file_type e =? "write".

(** The positions of the WRITE entries of a manifest, oldest first, counted
    from [from_]. *)
Fixpoint write_positions (from_ : nat) (manifest : list DataFileEntry)
  : list nat :=
  match manifest with
  | [] => []
  | e :: newer =>
      if is_write e then from_ :: write_positions (S from_) newer
      else write_positions (S from_) newer
  end.

(** The surviving rows of the WRITE at position [k] of the manifest: its
    fragment queried against the accumulators that the entries newer than
    [k], traversed newest first, leave behind. *)
Definition survivors_at (p : plan) (keys : option (list string))
  (manifest : list DataFileEntry) (k : nat) : result DataFrame :=
  let newer := skipn (S k) manifest in
  match nth_error manifest k with
  | None => Raise (ValueError "no such entry")
  | Some e =>
      s <- merge_loop p keys 0 (rev newer) initial_state ;;
      st <- write_statement p keys (List.length newer) (data_file e) s ;;
      execute st
  end.

(** The rows of [df] are rows of the WRITE entry [e], in its order, under
    the projection of the plan. *)
Definition drawn_from (p : plan) (e : DataFileEntry) (df : DataFrame) : Prop :=
  exists keep,
    rows df
    = map (project_row (plan_columns p) (columns (data_file e)))
          (filter keep (rows (data_file e))).

(** The fragment results of a materialization, oldest first: what
    [partition_results] holds after [partition_results.reverse()]. *)
Definition fragment_results (t : NdbTable) : result (list DataFrame) :=
  p <- _construct_sql t ;;
  s <- merge_loop p (deduplication_keys (_table_schema t)) 0
                  (rev (_data_list t)) initial_state ;;
  Ok (rev (partition_results s)).

(** The number of rows over a list of frames. *)
Definition total_rows (frames : list DataFrame) : nat :=
  list_sum (map len frames).

(** The states of two traversals of one manifest, without keys and with
    the empty key list: the same results and Deletes, no key seen without
    keys, and one indicator row per result row with the empty list. *)
Definition related (absent empty : merge_state) : Prop :=
  partition_results absent = partition_results empty
  /\ deletes absent = deletes empty
  /\ len (deduplication_keys_seen absent) = 0%nat
  /\ len (deduplication_keys_seen empty)
     = total_rows (partition_results empty).

(** Of the results collected so far, only the last may hold rows. *)
Definition rows_only_in_last (results : list DataFrame) : Prop :=
  total_rows (removelast results) = 0%nat.

(** The same table under another schema. *)
Definition with_keys (t : NdbTable) (keys : option (list string)) : NdbTable :=
  {| _version_number := _version_number t;
     _table_schema := {| deduplication_keys := keys |};
     _data_list := _data_list t;
     _ops := _ops t |}.

(** Whether a string holds a single quote. *)
Fixpoint has_single_quote (s : string) : bool :=
  match s with
  | EmptyString => false
  | String c s' => (c =? "'")%char || has_single_quote s'
  end.

(** The version numbers the leaves of a predicate carry. *)
Fixpoint leaf_versions (p : NdbBoolColumn) : list Z :=
  match p with
  | NdbComputedBoolColumnOpArg v _ _ => [v]
  | NdbComputedBoolColumnOpColumn a b _ =>
      (leaf_versions a ++ leaf_versions b)%list
  end.

(** ** Inputs of the examples *)

(** Two restrictions in a row: [a = 1], then [b = 2]. *)
Definition two_restrictions : NdbTable :=
  let t := table 1 None [write_entry ["a"; "b"] [[VInt 1; VInt 3]]] in
  select_rows (select_rows t (__eq__ (column t "a") (LInt 1)))
              (__eq__ (column t "b") (LInt 2)).

(** A restriction built on version 2 of the table, applied after one built
    on version 1, to the handle of version 1. *)
Definition foreign_second_restriction : NdbTable :=
  let t1 := table 1 None [write_entry ["a"; "b"] [[VInt 1; VInt 2]]] in
  let t2 := table 2 None [write_entry ["a"; "b"] [[VInt 1; VInt 2]]] in
  select_rows (select_rows t1 (__eq__ (column t1 "a") (LInt 1)))
              (__eq__ (column t2 "b") (LInt 2)).

(** The same with the foreign restriction first. *)
Definition foreign_first_restriction : NdbTable :=
  let t1 := table 1 None [write_entry ["a"; "b"] [[VInt 1; VInt 2]]] in
  let t2 := table 2 None [write_entry ["a"; "b"] [[VInt 1; VInt 2]]] in
  select_rows (select_rows t1 (__eq__ (column t2 "b") (LInt 2)))
              (__eq__ (column t1 "a") (LInt 1)).

(** Key [id]; the newer WRITE rewrites [id = 1] with a value that the
    restriction [v > 150] excludes. *)
Definition shadowed_by_excluded_row : NdbTable :=
  let t := table 1 (Some ["id"])
             [write_entry ["id"; "v"] [[VInt 1; VInt 200]];
              write_entry ["id"; "v"] [[VInt 1; VInt 100]]] in
  select_rows t (__gt__ (column t "v") (LInt 150)).

(** Two WRITEs of one row each, no ops. *)
Definition two_writes (keys : option (list string)) : NdbTable :=
  table 1 keys [write_entry ["id"] [[VInt 1]]; write_entry ["id"] [[VInt 2]]].

Definition quoted_name : NdbBoolColumn :=
  __eq__ {| col_table_version := 1; col_name := "name" |} (LStr "O'Brien").

(** An older DELETE on [id] and a newer DELETE on [name]; the newer one has
    no rows in [empty_newer_delete] and one row in [unlike_deletes]. *)
Definition empty_newer_delete : NdbTable :=
  table 1 None [delete_entry ["id"] [[VInt 1]]; delete_entry ["name"] []].

Definition unlike_deletes : NdbTable :=
  table 1 None [delete_entry ["id"] [[VInt 1]];
                delete_entry ["name"] [[VStr "x"]]].

Definition reordered_deletes : NdbTable :=
  table 1 None [write_entry ["a"; "b"] [[VInt 1; VInt 2]; [VInt 3; VInt 4]];
                delete_entry ["a"; "b"] [[VInt 1; VInt 2]];
                delete_entry ["b"; "a"] [[VInt 9; VInt 9]]].

(** Key [id], projected away by the handle. *)
Definition key_projected_away : NdbTable :=
  select_columns
    (table 1 (Some ["id"]) [write_entry ["id"; "v"] [[VInt 1; VInt 100]]])
    ["v"].

Definition narrowing : list Op :=
  [_SelectColumnsOp ["a"; "b"; "c"]; _SelectColumnsOp ["c"; "a"]].

Definition widening : list Op :=
  [_SelectColumnsOp ["a"; "b"]; _SelectColumnsOp ["b"; "c"; "d"];
   _SelectColumnsOp ["z"]].

(** ** The rest of the handle interface *)

(** What may stand between the brackets of [t[...]], by the type tests of
    [NdbTable.__getitem__]; [ItemOther] carries the text of [type(item)]. *)
Inductive item : Type :=
| ItemStr (name : string)
| ItemIterable (names : list string)
| ItemPredicate (p : NdbBoolColumn)
| ItemColumn (c : NdbColumn)
| ItemOther (type_text : string).

Inductive selection : Type :=
| SelectedColumn (c : NdbColumn)
| SelectedTable (t : NdbTable).

(** [NdbTable.__getitem__] *)
Definition __getitem__ (t : NdbTable) (it : item) : result selection :=
  match it with
  | ItemStr name => Ok (SelectedColumn (column t name))
  | ItemIterable names =>
      Ok (SelectedTable (with_op t (_SelectColumnsOp names)))
  | ItemPredicate p => Ok (SelectedTable (with_op t (_SelectRowsOp p)))
  | ItemColumn c =>
      Ok (SelectedTable (with_op t (_SelectRowsOp (_interpret_as_bool c))))
  | ItemOther type_text =>
      Raise (ValueError ("NdbTable[" ++ type_text
                         ++ "] is not a valid operation"))
  end.

(** [NdbTable.columns] and [NdbTable.head] *)
Definition NdbTable_columns (t : NdbTable) : result (list string) :=
  Raise (NotImplementedError EmptyString).

Definition NdbTable_head (t : NdbTable) (n : Z) : result DataFrame :=
  Raise (NotImplementedError "Should be straightforward to implement...").

(** [NdbColumn._construct_where_clause] *)
Definition column_construct_where_clause (c : NdbColumn) (version_number : Z)
  : result string :=
  _construct_where_clause (_interpret_as_bool c) version_number.

(** [df[name]] for one label: the cells of that column as a [pd.Series]. *)
Definition getitem_series (df : DataFrame) (name : string)
  : result (list value) :=
  if mem name (columns df)
  then Ok (map (fun row => cell_or_null (columns df) row name) (rows df))
  else Raise (KeyError [name]).

(** [NdbColumn.to_pd] for the column [name] of the handle [t]:
    [self._ndb_table[[self._column_name]].to_pd()[self._column_name]]. *)
Definition column_to_pd (t : NdbTable) (name : string) : result (list value) :=
  df <- to_pd (select_columns t [name]) ;;
  getitem_series df name.

(** ** Reading the merge off the manifest *)

(** The cells of a row under the labels [labels]. *)
Definition key_cells (labels cols : list string) (row : list value)
  : list value :=
  map (cell_or_null cols row) labels.

(** SQL equality of two tuples, cell by cell. *)
Definition tuples_equal (a b : list value) : bool :=
  forallb (fun ab => sql_equal (fst ab) (snd ab)) (combine a b).

(** The tuples a frame holds under the labels [labels], row by row. *)
Definition key_tuples (labels : list string) (df : DataFrame)
  : list (list value) :=
  map (key_cells labels (columns df)) (rows df).

(** Whether some row of an entry of [newer] of the given kind carries, under
    [labels], a tuple equal to [k]. *)
Definition names_tuple (kind : DataFileEntry -> bool) (labels : list string)
  (k : list value) (newer : list DataFileEntry) : bool :=
  existsb
    (fun e => kind e
              && existsb (tuples_equal k) (key_tuples labels (data_file e)))
    newer.

(** Whether a row of some WRITE entry of [newer] agrees with [row] on the
    key columns. *)
Definition shadowed (ks cols : list string) (row : list value)
  (newer : list DataFileEntry) : bool :=
  names_tuple is_write ks (key_cells ks cols row) newer.

(** For a manifest of WRITE entries: of each entry, the rows that no newer
    entry rewrites. *)
Fixpoint latest_versions (ks : list string) (manifest : list DataFileEntry)
  : list DataFrame :=
  match manifest with
  | [] => []
  | e :: newer =>
      {| columns := columns (data_file e);
         rows := filter (fun row =>
                           negb (shadowed ks (columns (data_file e)) row newer))
                        (rows (data_file e)) |}
      :: latest_versions ks newer
  end.

Definition is_delete (e : DataFileEntry) : bool := data_file_type e =? "delete".

(** Whether a row of some DELETE entry of [newer] agrees with [row] on the
    columns [dcols]. *)
Definition deleted (dcols cols : list string) (row : list value)
  (newer : list DataFileEntry) : bool :=
  names_tuple is_delete dcols (key_cells dcols cols row) newer.

(** For a manifest of WRITE and DELETE entries: of each WRITE, the rows that
    pass the restriction of the plan and that no newer DELETE names, under
    the projection of the plan. *)
Fixpoint undeleted (p : plan) (dcols : list string)
  (manifest : list DataFileEntry) : list DataFrame :=
  match manifest with
  | [] => []
  | e :: newer =>
      if is_write e then
        {| columns := match plan_columns p with
                      | Some wanted => wanted
                      | None => columns (data_file e)
                      end;
           rows := map (project_row (plan_columns p) (columns (data_file e)))
                       (filter (fun row =>
                                  negb (deleted dcols (columns (data_file e))
                                                row newer)
                                  && passes (columns (data_file e)) row
                                            (plan_filter p))
                               (rows (data_file e))) |}
        :: undeleted p dcols newer
      else undeleted p dcols newer
  end.

(** A frame whose rows have one cell per label. *)
Definition well_formed (df : DataFrame) : Prop :=
  Forall (fun row => List.length row = List.length (columns df)) (rows df).

(** A frame with the labels [cols] and one cell per label in every row. *)
Definition shaped (cols : list string) (df : DataFrame) : Prop :=
  columns df = cols
  /\ Forall (fun row => List.length row = List.length cols) (rows df).

(** Every DELETE entry of the manifest is a well-formed frame on the labels
    [dcols]. *)
Definition deletes_on (dcols : list string) (manifest : list DataFileEntry)
  : Prop :=
  Forall (fun e => is_delete e = true ->
                   columns (data_file e) = dcols /\ well_formed (data_file e))
         manifest.

(** What a traversal without deduplication keys has accumulated after the
    entries [newer]: no key seen, the results of [undeleted], and a Deletes
    relation on [dcols] holding the tuples of the DELETE entries. *)
Definition deletes_accumulated (p : plan) (dcols : list string)
  (newer : list DataFileEntry) (s : merge_state) : Prop :=
  len (deduplication_keys_seen s) = 0%nat
  /\ rev (partition_results s) = undeleted p dcols newer
  /\ (deletes s = empty_frame
      \/ columns (deletes s) = (dcols ++ [_indicator_column_name])%list)
  /\ forall k,
       existsb (tuples_equal k) (key_tuples dcols (deletes s))
       = names_tuple is_delete dcols k newer.

(** What a traversal of WRITE entries with the keys [ks] and no op has
    accumulated after the entries [newer]: no DELETE, the results of
    [latest_versions], and a Seen relation that names the same key tuples as
    the rows of [newer]. *)
Definition keys_accumulated (ks : list string) (newer : list DataFileEntry)
  (s : merge_state) : Prop :=
  deletes s = empty_frame
  /\ rev (partition_results s) = latest_versions ks newer
  /\ forall k,
       existsb (tuples_equal k) (key_tuples ks (deduplication_keys_seen s))
       = names_tuple is_write ks k newer.

(** A WRITE entry cut down to the rows that pass the restriction of the
    plan, and a frame under the projection of the plan. *)
Definition restricted (p : plan) (e : DataFileEntry) : DataFileEntry :=
  {| data_file_type := data_file_type e;
     data_file :=
       {| columns := columns (data_file e);
          rows := filter (fun row => passes (columns (data_file e)) row
                                            (plan_filter p))
                         (rows (data_file e)) |} |}.

Definition projected (p : plan) (df : DataFrame) : DataFrame :=
  {| columns := match plan_columns p with
                | Some wanted => wanted
                | None => columns df
                end;
     rows := map (project_row (plan_columns p) (columns df)) (rows df) |}.

(** What a traversal of WRITE entries with the keys [ks] has accumulated
    after the entries [newer], under any plan whose projection keeps the
    keys. *)
Definition restricted_keys_accumulated (p : plan) (ks : list string)
  (newer : list DataFileEntry) (s : merge_state) : Prop :=
  deletes s = empty_frame
  /\ rev (partition_results s)
     = map (projected p) (latest_versions ks (map (restricted p) newer))
  /\ forall k,
       existsb (tuples_equal k) (key_tuples ks (deduplication_keys_seen s))
       = names_tuple is_write ks k (map (restricted p) newer).

(** ** The clauses with the alias in place *)

(** Whether a string is free of the opening bracket, the first character of
    the table-name placeholder. *)
Fixpoint bracket_free (s : string) : bool :=
  match s with
  | EmptyString => true
  | String c s' => negb (c =? "[")%char && bracket_free s'
  end.

Definition literal_bracket_free (l : literal) : bool :=
  match l with
  | LStr s => bracket_free s
  | LDatetime text => bracket_free text
  | LInt _ => true
  end.

Definition op_arg_bracket_free (oa : op_arg) : bool :=
  match oa with
  | Scalar _ arg => literal_bracket_free arg
  | Between a b | NotBetween a b =>
      literal_bracket_free a && literal_bracket_free b
  | In_ items | NotIn items => forallb literal_bracket_free items
  end.

(** No column name and no literal of the predicate holds a bracket. *)
Fixpoint predicate_bracket_free (p : NdbBoolColumn) : bool :=
  match p with
  | NdbComputedBoolColumnOpArg _ c oa =>
      bracket_free c && op_arg_bracket_free oa
  | NdbComputedBoolColumnOpColumn a b _ =>
      predicate_bracket_free a && predicate_bracket_free b
  end.

(** The clauses as they read once the alias [alias] of a fragment stands
    where the placeholder stood. *)
Definition quoted_column_for (alias column_name : string) : string :=
  alias ++ "." ++ dquote ++ column_name ++ dquote.

Definition render_op_arg_for (alias column_name : string) (oa : op_arg)
  : string :=
  match oa with
  | Between a b =>
      "(" ++ quoted_column_for alias column_name ++ " BETWEEN "
          ++ _single_arg_to_string a ++ " AND "
          ++ _single_arg_to_string b ++ ")"
  | NotBetween a b =>
      "(" ++ quoted_column_for alias column_name ++ " NOT BETWEEN "
          ++ _single_arg_to_string a ++ " AND "
          ++ _single_arg_to_string b ++ ")"
  | In_ items =>
      "(" ++ quoted_column_for alias column_name ++ " IN ("
          ++ String.concat ", " (map _single_arg_to_string items) ++ "))"
  | NotIn items =>
      "(" ++ quoted_column_for alias column_name ++ " NOT IN ("
          ++ String.concat ", " (map _single_arg_to_string items) ++ "))"
  | Scalar op arg =>
      "(" ++ quoted_column_for alias column_name ++ " "
          ++ scalar_op_string op ++ " "
          ++ _single_arg_to_string arg ++ ")"
  end.

Fixpoint where_clause_for (alias : string) (p : NdbBoolColumn) : string :=
  match p with
  | NdbComputedBoolColumnOpArg _ column_name oa =>
      render_op_arg_for alias column_name oa
  | NdbComputedBoolColumnOpColumn a b op =>
      "(" ++ where_clause_for alias a ++ " " ++ bool_op_string op ++ " "
          ++ where_clause_for alias b ++ ")"
  end.

Definition select_clause_for (alias : string) (C : option (list string))
  : string :=
  match C with
  | None => "SELECT " ++ alias ++ ".*"
  | Some cols =>
      "SELECT " ++ String.concat ", " (map (quoted_column_for alias) cols)
  end.

(** [s] carries the placeholder where [s'] carries [new], whatever text
    follows. *)
Definition substitutes (new s s' : string) : Prop :=
  forall rest,
    replace _table_name_placeholder new (s ++ rest)
    = s' ++ replace _table_name_placeholder new rest.

(** The handle [t] with one more, older, entry in front of its manifest. *)
Definition with_older_entry (e : DataFileEntry) (t : NdbTable) : NdbTable :=
  {| _version_number := _version_number t;
     _table_schema := _table_schema t;
     _data_list := e :: _data_list t;
     _ops := _ops t |}.

(** For a manifest of WRITE and DELETE entries read with the keys [ks]: of
    each WRITE, before projection, the rows that pass the restriction, that
    no newer DELETE names on [dcols], and whose key tuple no row kept from
    a newer WRITE carries. *)
Fixpoint merged (p : plan) (ks dcols : list string)
  (manifest : list DataFileEntry) : list DataFrame :=
  match manifest with
  | [] => []
  | e :: newer =>
      let later := merged p ks dcols newer in
      if is_write e then
        {| columns := columns (data_file e);
           rows := filter
                     (fun row =>
                        negb (deleted dcols (columns (data_file e)) row newer)
                        && negb (existsb
                                   (tuples_equal
                                      (key_cells ks (columns (data_file e))
                                                 row))
                                   (flat_map (key_tuples ks) later))
                        && passes (columns (data_file e)) row (plan_filter p))
                     (rows (data_file e)) |}
        :: later
      else later
  end.

(** What a traversal with the keys [ks] has accumulated after the entries
    [newer], when the DELETE entries are on [dcols]. *)
Definition both_accumulated (p : plan) (ks dcols : list string)
  (newer : list DataFileEntry) (s : merge_state) : Prop :=
  rev (partition_results s) = map (projected p) (merged p ks dcols newer)
  /\ (deletes s = empty_frame
      \/ columns (deletes s) = (dcols ++ [_indicator_column_name])%list)
  /\ (forall k,
        existsb (tuples_equal k) (key_tuples dcols (deletes s))
        = names_tuple is_delete dcols k newer)
  /\ (forall k,
        existsb (tuples_equal k) (key_tuples ks (deduplication_keys_seen s))
        = existsb (tuples_equal k)
                  (flat_map (key_tuples ks) (merged p ks dcols newer))).

(** ** The inputs on which the engine model stands for DuckDB

    The model of the engine compares labels exactly, compares a cell with a
    literal of its own kind only, and reads a predicate as the tree it was
    built as.  DuckDB resolves a name ignoring ASCII case and answers under
    the fragment's own labels, renames a label that the select list
    repeats, casts a literal to the type of the column it is compared with,
    and parses the text that [_construct_where_clause] and [_construct_sql]
    render, in which names and literals stand unescaped.  The predicates
    below single out the inputs on which the two agree. *)

Definition lower_char (c : ascii) : ascii :=
  let n := nat_of_ascii c in
  if ((65 <=? n) && (n <=? 90))%nat then ascii_of_nat (n + 32) else c.

(** A name in ASCII lower case, the form under which the engine compares
    names. *)
Fixpoint lower (s : string) : string :=
  match s with
  | EmptyString => EmptyString
  | String c s' => String (lower_char c) (lower s')
  end.

(** Each of [names] that the engine takes for one of [labels] is written as
    that label. *)
Definition same_case (names labels : list string) : bool :=
  forallb (fun c =>
             forallb (fun l => implb (lower c =? lower l) (c =? l)) labels)
          names.

(** The label the engine takes a name for: the first that is the name up
    to ASCII case. *)
Definition resolve (labels : list string) (name : string) : option string :=
  find (fun l => lower l =? lower name) labels.

Fixpoint distinct (names : list string) : bool :=
  match names with
  | [] => true
  | c :: rest => negb (mem c rest) && distinct rest
  end.

Fixpoint has_double_quote (s : string) : bool :=
  match s with
  | EmptyString => false
  | String c s' => (c =? ascii_of_nat 34)%char || has_double_quote s'
  end.

Fixpoint ascii_only (s : string) : bool :=
  match s with
  | EmptyString => true
  | String c s' => (nat_of_ascii c <? 128)%nat && ascii_only s'
  end.

(** A name that its text between double quotes denotes: it is in ASCII,
    closes no double quote and holds no placeholder for the alias to
    replace. *)
Definition quotable (name : string) : bool :=
  ascii_only name && bracket_free name && negb (has_double_quote name).

Definition identifier_char (c : ascii) : bool :=
  let n := nat_of_ascii c in
  (((65 <=? n) && (n <=? 90)) || ((97 <=? n) && (n <=? 122))
   || ((48 <=? n) && (n <=? 57)) || (n =? 95))%nat.

Fixpoint identifier_chars (s : string) : bool :=
  match s with
  | EmptyString => true
  | String c s' => identifier_char c && identifier_chars s'
  end.

(** A name that the join condition can carry without quotes: letters,
    digits and underscores, the first not a digit. *)
Definition plain_identifier (name : string) : bool :=
  match name with
  | EmptyString => false
  | String c _ =>
      negb ((48 <=? nat_of_ascii c) && (nat_of_ascii c <=? 57))%nat
      && identifier_chars name
  end.

(** A literal that its rendering denotes: a string closes no single quote
    and holds no placeholder. *)
Definition plain_literal (l : literal) : bool :=
  match l with
  | LStr s => bracket_free s && negb (has_single_quote s)
  | LDatetime text => bracket_free text && negb (has_single_quote text)
  | LInt _ => true
  end.

Definition literals_of (oa : op_arg) : list literal :=
  match oa with
  | Scalar _ l => [l]
  | Between lo hi => [lo; hi]
  | NotBetween lo hi => [lo; hi]
  | In_ items => items
  | NotIn items => items
  end.

(** A predicate that the engine parses back, from its rendering, as the
    tree it was built as: names and literals that their text denotes, and
    no empty list of items. *)
Fixpoint plain_predicate (p : NdbBoolColumn) : bool :=
  match p with
  | NdbComputedBoolColumnOpArg _ c oa =>
      quotable c && forallb plain_literal (literals_of oa)
      && negb (List.length (literals_of oa) =? 0)%nat
  | NdbComputedBoolColumnOpColumn a b _ =>
      plain_predicate a && plain_predicate b
  end.

(** A cell and a literal that compare without a cast. *)
Definition same_kind (v : value) (l : literal) : bool :=
  match v, l with
  | VNull, _ => true
  | VInt _, LInt _ => true
  | VStr _, LStr _ => true
  | VStr _, LDatetime _ => true
  | _, _ => false
  end.

(** On the row, every leaf compares its cell with literals of the cell's
    kind. *)
Fixpoint typed (cols : list string) (row : list value) (p : NdbBoolColumn)
  : bool :=
  match p with
  | NdbComputedBoolColumnOpArg _ c oa =>
      forallb (same_kind (cell_or_null cols row c)) (literals_of oa)
  | NdbComputedBoolColumnOpColumn a b _ =>
      typed cols row a && typed cols row b
  end.

Definition same_kind_cells (a b : value) : bool :=
  match a, b with
  | VInt _, VStr _ => false
  | VStr _, VInt _ => false
  | _, _ => true
  end.

(** Under each of [names], the cells of all the entries are of one kind, so
    that a join on the name compares without a cast. *)
Definition joinable (names : list string) (manifest : list DataFileEntry)
  : bool :=
  forallb (fun c =>
             let cells :=
               flat_map (fun e =>
                           map (fun row =>
                                  cell_or_null (columns (data_file e)) row c)
                               (rows (data_file e)))
                        manifest in
             forallb (fun a => forallb (same_kind_cells a) cells) cells)
          names.

Definition projection_in_domain (projection : option (list string)) : bool :=
  match projection with
  | Some cols => forallb quotable cols && distinct (map lower cols)
  | None => true
  end.

Definition restriction_in_domain (q : option NdbBoolColumn) : bool :=
  match q with
  | Some q => plain_predicate q
  | None => true
  end.

(** The names a statement of the plan carries, with the names [joined] of
    its join conditions. *)
Definition names_of (p : plan) (joined : list string) : list string :=
  (match plan_columns p with Some cols => cols | None => [] end
   ++ match plan_filter p with Some q => referenced q | None => [] end
   ++ joined)%list.

(** A WRITE entry whose labels are distinct up to case, with the names of
    the statement written as the labels they mean, and whose rows the
    restriction compares without a cast. *)
Definition entry_in_domain (p : plan) (joined : list string)
  (e : DataFileEntry) : bool :=
  if is_write e then
    distinct (map lower (columns (data_file e)))
    && same_case (names_of p joined) (columns (data_file e))
    && forallb (fun row =>
                  match plan_filter p with
                  | Some q => typed (columns (data_file e)) row q
                  | None => true
                  end)
               (rows (data_file e))
  else true.

(** The names of one join: plain identifiers, no two the same up to case
    and none the indicator. *)
Definition join_in_domain (names : list string) : bool :=
  forallb plain_identifier names
  && distinct (map lower (_indicator_column_name :: names)).

(** The plan, the deduplication keys [ks], the DELETE columns [dcols] and
    the manifest are such that the statements of the traversal mean to
    DuckDB what they mean to [execute]. *)
Definition in_domain (p : plan) (ks dcols : list string)
  (manifest : list DataFileEntry) : bool :=
  projection_in_domain (plan_columns p)
  && restriction_in_domain (plan_filter p)
  && join_in_domain ks && join_in_domain dcols
  && joinable (ks ++ dcols) manifest
  && forallb (entry_in_domain p (ks ++ dcols)) manifest.

(** ** Further inputs *)

(** [a > 0] and [b = 'x']. *)
Definition positive_and_named : NdbBoolColumn :=
  __and__ (__gt__ {| col_table_version := 1; col_name := "a" |} (LInt 0))
          (__eq__ {| col_table_version := 1; col_name := "b" |} (LStr "x")).

(** A WRITE, a DELETE on [id] that names its row, and a newer DELETE on
    [name] with no rows. *)
Definition unlike_deletes_over_write : NdbTable :=
  table 1 None [write_entry ["id"; "name"] [[VInt 1; VStr "a"]];
                delete_entry ["id"] [[VInt 1]];
                delete_entry ["name"] []].

(** Two WRITEs around a DELETE on [id], restricted to [a >= 20] and
    projected onto [a], [id]. *)
Definition restricted_around_delete : NdbTable :=
  let t := table 1 None
             [write_entry ["id"; "a"]
                [[VInt 1; VInt 10]; [VInt 2; VInt 20]; [VInt 6; VInt 60]];
              delete_entry ["id"] [[VInt 2]; [VInt 3]];
              write_entry ["id"; "a"] [[VInt 3; VInt 30]; [VInt 5; VInt 50]]] in
  select_columns (select_rows t (__ge__ (column t "a") (LInt 20)))
                 ["a"; "id"].

(** Key [id]: a WRITE, a DELETE on [id] and a newer WRITE, restricted to
    [v > 50]. *)
Definition restricted_keys_and_delete : NdbTable :=
  let t := table 1 (Some ["id"])
             [write_entry ["id"; "v"] [[VInt 1; VInt 100]; [VInt 3; VInt 300]];
              delete_entry ["id"] [[VInt 3]];
              write_entry ["id"; "v"] [[VInt 1; VInt 200]; [VInt 2; VInt 20]]] in
  select_rows t (__gt__ (column t "v") (LInt 50)).

(** * Properties *)

(** ** The end-to-end scenarios of the specification *)

Example S1_simple_projection :
  to_pd S1_table
  = Ok {| columns := ["a"; "b"];
          rows := [[VInt 10; VStr "x"]; [VInt 20; VStr "y"]] |}.
Proof. reflexivity. Qed.

Example S2_deduplication :
  to_pd S2_table
  = Ok {| columns := ["id"; "v"];
          rows := [[VInt 2; VInt 200]; [VInt 1; VInt 101];
                   [VInt 3; VInt 300]] |}.
Proof. reflexivity. Qed.

Example S3_delete :
  to_pd S3_table
  = Ok {| columns := ["id"; "a"];
          rows := [[VInt 2; VInt 20]; [VInt 3; VInt 30]] |}.
Proof. reflexivity. Qed.

Example S4_delete_and_deduplication :
  to_pd S4_table
  = Ok {| columns := ["id"; "v"];
          rows := [[VInt 1; VInt 200]; [VInt 2; VInt 20]] |}.
Proof. reflexivity. Qed.

Example S5_predicate :
  to_pd S5_table
  = Ok {| columns := ["t"; "x"]; rows := [[VStr "2024-06-01"; VInt 7]] |}.
Proof. reflexivity. Qed.

Example S6_negated_conjunction :
  to_pd S6_table
  = Ok {| columns := ["a"; "b"];
          rows := [[VInt 1; VInt 2]; [VInt 2; VInt 1]] |}.
Proof. reflexivity. Qed.

(** The statement text for the oldest WRITE of S4, as the source assembles
    it once a DELETE and a key have been accumulated. *)
Example S4_statement_text :
  option_map sql
    (match _construct_sql S4_table with
     | Ok p =>
         match merge_loop p (Some ["id"]) 0
                 (rev (skipn 1 (_data_list S4_table))) initial_state with
         | Ok s =>
             match write_statement p (Some ["id"]) 2
                     {| columns := ["id"; "v"]; rows := [[VInt 1; VInt 100]] |}
                     s with
             | Ok st => Some st
             | Raise _ => None
             end
         | Raise _ => None
         end
     | Raise _ => None
     end)
  = Some ("SELECT t2.* FROM t2 LEFT JOIN ds ON t2.id = ds.id"
          ++ " LEFT JOIN pks ON t2.id = pks.id"
          ++ " WHERE ds.__ndb_reserved_indicator__ IS NULL"
          ++ " AND pks.__ndb_reserved_indicator__ IS NULL AND TRUE").
Proof. reflexivity. Qed.

(** ** The predicate algebra *)

Lemma invert_scalar_op_involutive (op : scalar_op) :
  invert_scalar_op (invert_scalar_op op) = op.
Proof. destruct op; reflexivity. Qed.

Lemma invert_op_arg_involutive (oa : op_arg) :
  invert_op_arg (invert_op_arg oa) = oa.
Proof.
  destruct oa; simpl; try reflexivity.
  now rewrite invert_scalar_op_involutive.
Qed.

Lemma invert_involutive (p : NdbBoolColumn) : __invert__ (__invert__ p) = p.
Proof.
  induction p as [v c oa | a IHa b IHb op]; simpl.
  - now rewrite invert_op_arg_involutive.
  - destruct op; simpl; now rewrite IHa, IHb.
Qed.

(** De Morgan, on the trees. *)
Lemma invert_and (a b : NdbBoolColumn) :
  __invert__ (__and__ a b) = __or__ (__invert__ a) (__invert__ b).
Proof. reflexivity. Qed.

Lemma invert_or (a b : NdbBoolColumn) :
  __invert__ (__or__ a b) = __and__ (__invert__ a) (__invert__ b).
Proof. reflexivity. Qed.

(** C9. Negation involution: for every predicate [p] (every tree of
    comparison leaves under AND/OR, so in particular every one built from
    EQ, NE, LT, LE, GT, GE, BETWEEN, IN and the two combinators),
    NOT(NOT(p)) compiles, against any table version, to the same where
    clause as [p], or fails with the same error. *)
Theorem double_negation_same_clause (p : NdbBoolColumn) (version_number : Z) :
  _construct_where_clause (__invert__ (__invert__ p)) version_number
  = _construct_where_clause p version_number.
Proof. now rewrite invert_involutive. Qed.

(** Rendering fails in one way only. *)
Lemma where_clause_ok_or_cross_table (p : NdbBoolColumn) (version_number : Z) :
  (exists clause, _construct_where_clause p version_number = Ok clause)
  \/ _construct_where_clause p version_number = Raise CrossTableReference.
Proof.
  induction p as [v c oa | a IHa b IHb op]; simpl.
  - destruct (v =? version_number)%Z; simpl; eauto.
  - destruct IHa as [[sa ->] | ->]; simpl; [ | now right].
    destruct IHb as [[sb ->] | ->]; simpl; eauto.
Qed.

(** A leaf anywhere in the rendered tree is checked. *)
Lemma where_clause_checks_every_leaf (p : NdbBoolColumn) (version_number : Z) :
  (exists v, In v (leaf_versions p) /\ v <> version_number) ->
  _construct_where_clause p version_number = Raise CrossTableReference.
Proof.
  induction p as [v c oa | a IHa b IHb op]; simpl; intros [w [Hin Hne]].
  - destruct Hin as [-> | []].
    destruct (Z.eqb_spec w version_number); [contradiction | reflexivity].
  - apply in_app_or in Hin.
    destruct (where_clause_ok_or_cross_table a version_number) as [[sa Ha] | Ha];
      rewrite Ha; simpl; [ | reflexivity].
    destruct Hin as [Hin | Hin].
    + rewrite IHa in Ha by eauto. discriminate.
    + now rewrite IHb by eauto.
Qed.

(** C5, as the code has it: a leaf renders whenever its version is the
    handle's, whatever its literal; a string literal is inlined verbatim
    between single quotes, a single quote inside it included; and rendering
    a predicate fails in no other way than by CrossTableReference. *)
Theorem string_literal_inlined_verbatim :
  (forall v c oa,
      _construct_where_clause (NdbComputedBoolColumnOpArg v c oa) v
      = Ok (render_op_arg c oa))
  /\ (forall s, _single_arg_to_string (LStr s) = "'" ++ s ++ "'")
  /\ (forall p version_number,
        (exists clause, _construct_where_clause p version_number = Ok clause)
        \/ _construct_where_clause p version_number = Raise CrossTableReference).
Proof.
  split; [ | split].
  - intros v c oa. simpl. now rewrite Z.eqb_refl.
  - reflexivity.
  - apply where_clause_ok_or_cross_table.
Qed.

(** C5, counterexample: the literal [O'Brien] holds an unescaped single
    quote, and the leaf comparing with it renders to a clause. *)
Lemma single_quote_renders :
  has_single_quote "O'Brien" = true
  /\ _construct_where_clause quoted_name 1
     = Ok ("(" ++ quoted_column "name" ++ " = 'O'Brien')").
Proof. split; reflexivity. Qed.

(** ** The plan compiler *)

Lemma projection_walk_some (current : list string) (ops : list Op) :
  projection_walk (Some current) ops
  = (c <- narrow_columns current (column_args ops) ;; Ok (Some c)).
Proof.
  revert current.
  induction ops as [ | [cols | q] ops IH]; intros current; simpl.
  - reflexivity.
  - unfold columns_not_previously_selected.
    destruct (filter _ cols) as [ | a offending]; simpl.
    + apply IH.
    + reflexivity.
  - apply IH.
Qed.

Lemma projection_walk_none (ops : list Op) :
  projection_walk None ops
  = match column_args ops with
    | [] => Ok None
    | first :: rest => c <- narrow_columns first rest ;; Ok (Some c)
    end.
Proof.
  induction ops as [ | [cols | q] ops IH]; simpl.
  - reflexivity.
  - apply projection_walk_some.
  - apply IH.
Qed.

Lemma projection_walk_app (C : option (list string)) (before after : list Op) :
  projection_walk C (before ++ after)
  = (C' <- projection_walk C before ;; projection_walk C' after).
Proof.
  revert C.
  induction before as [ | [cols | q] before IH]; intros C; simpl.
  - reflexivity.
  - destruct C as [current | ].
    + destruct (filter _ cols); simpl; [apply IH | reflexivity].
    + apply IH.
  - apply IH.
Qed.

Lemma last_cons_default {A} (a d : A) (l : list A) :
  last (a :: l) d = last l a.
Proof.
  revert a d. induction l as [ | b l IH]; intros a d; [reflexivity | ].
  change (last (a :: b :: l) d) with (last (b :: l) d).
  now rewrite !IH.
Qed.

Lemma narrow_columns_last (current : list string) (rest : list (list string))
  (c : list string) :
  narrow_columns current rest = Ok c ->
  Some c = last (map Some rest) (Some current).
Proof.
  revert current.
  induction rest as [ | next rest IH]; intros current.
  - simpl. now intros [= ->].
  - cbn [narrow_columns map]. rewrite last_cons_default.
    destruct (0 <? _)%nat; [discriminate | apply IH].
Qed.

Lemma compile_select_walk (ops : list Op) :
  compile_select ops
  = (C <- projection_walk None ops ;; Ok (projection_clause C, C)).
Proof.
  unfold compile_select. rewrite projection_walk_none.
  destruct (column_args ops) as [ | first rest]; simpl.
  - reflexivity.
  - destruct (narrow_columns first rest); reflexivity.
Qed.

Lemma projection_walk_last (ops : list Op) (C : option (list string)) :
  projection_walk None ops = Ok C -> C = last_projection ops.
Proof.
  intros HC.
  unfold last_projection. rewrite projection_walk_none in HC.
  destruct (column_args ops) as [ | first rest].
  - now injection HC as <-.
  - destruct (narrow_columns first rest) as [c | e] eqn:Hn;
      [ | discriminate].
    injection HC as <-. rewrite (narrow_columns_last _ _ _ Hn).
    cbn [map]. now rewrite last_cons_default.
Qed.

(** C7. Projection folding: [compile_select] is the walk over the ops in
    append order with a current column set, initially "all"; when no op
    widens, the clause lists the columns of the last ProjectColumns op in
    its order, and selects all columns when there is none; and the first op
    naming a column outside the current set fails with
    ProjectionWidensSelection carrying exactly the offending names. *)
Theorem projection_folding (ops : list Op) :
  compile_select ops
  = (C <- projection_walk None ops ;; Ok (projection_clause C, C))
  /\ (forall C, projection_walk None ops = Ok C ->
        compile_select ops
        = Ok (projection_clause (last_projection ops), last_projection ops))
  /\ (forall before cols after current,
        ops = (before ++ _SelectColumnsOp cols :: after)%list ->
        projection_walk None before = Ok (Some current) ->
        columns_not_previously_selected current cols <> [] ->
        compile_select ops
        = Raise (ProjectionWidensSelection
                   (columns_not_previously_selected current cols))).
Proof.
  split; [apply compile_select_walk | split].
  - intros C HC. rewrite compile_select_walk, HC. simpl.
    now rewrite (projection_walk_last _ _ HC).
  - intros before cols after current -> Hbefore Hoff.
    rewrite compile_select_walk, projection_walk_app, Hbefore. simpl.
    unfold columns_not_previously_selected in *.
    destruct (filter _ cols); [contradiction | reflexivity].
Qed.

Lemma projection_folding_witness :
  compile_select narrowing
  = Ok (projection_clause (Some ["c"; "a"]), Some ["c"; "a"])
  /\ compile_select widening = Raise (ProjectionWidensSelection ["c"; "d"]).
Proof.
  split.
  - exact (proj1 (proj2 (projection_folding narrowing))
                 (Some ["c"; "a"]) eq_refl).
  - refine (proj2 (proj2 (projection_folding widening))
                  [_SelectColumnsOp ["a"; "b"]] ["b"; "c"; "d"]
                  [_SelectColumnsOp ["z"]] ["a"; "b"] eq_refl eq_refl _).
    discriminate.
Defined.

(** The where clause is rendered from the first restriction alone. *)
Lemma compile_where_first (first : NdbBoolColumn) (ops : list Op)
  (version_number : Z) :
  compile_where (_SelectRowsOp first :: ops) version_number
  = (w <- _construct_where_clause first version_number ;; Ok (w, Some first)).
Proof. reflexivity. Qed.

(** With no restriction the clause is the literal truth, and with one it is
    that predicate: up to one restriction the clause is the conjunction. *)
Lemma compile_where_up_to_one (ops : list Op) (version_number : Z) :
  (List.length (row_args ops) <= 1)%nat ->
  compile_where ops version_number
  = match conjunction (row_args ops) with
    | None => Ok ("TRUE", None)
    | Some q =>
        w <- _construct_where_clause q version_number ;; Ok (w, Some q)
    end.
Proof.
  unfold compile_where, conjunction.
  destruct (row_args ops) as [ | first [ | second rest]]; simpl;
    intros H; try reflexivity; lia.
Qed.

(** C1, on the code: with the restrictions [a = 1] then [b = 2] the compiled
    clause is [a = 1] alone, not the conjunction, and the row [(a=1, b=3)],
    which fails the second restriction, is materialized. *)
Theorem later_restriction_not_compiled :
  (exists p, _construct_sql two_restrictions = Ok p
     /\ where_clause p = "(" ++ quoted_column "a" ++ " = 1)"
     /\ option_map (fun q => _construct_where_clause q 1)
          (conjunction (row_args (_ops two_restrictions)))
        = Some (Ok ("((" ++ quoted_column "a" ++ " = 1) AND ("
                    ++ quoted_column "b" ++ " = 2))"))
     /\ plan_filter p <> conjunction (row_args (_ops two_restrictions)))
  /\ to_pd two_restrictions
     = Ok {| columns := ["a"; "b"]; rows := [[VInt 1; VInt 3]] |}.
Proof.
  split; [ | reflexivity].
  eexists. split; [reflexivity | ].
  split; [reflexivity | ]. split; [reflexivity | ].
  simpl. discriminate.
Qed.

(** C4, on the code: a leaf of another table version in the second
    restriction is not looked at, and compilation and materialization
    succeed; the same leaf in the first restriction is refused. *)
Theorem foreign_leaf_in_later_restriction_accepted :
  In 2%Z (flat_map leaf_versions
            (row_args (_ops foreign_second_restriction)))
  /\ _version_number foreign_second_restriction = 1%Z
  /\ is_ok (_construct_sql foreign_second_restriction) = true
  /\ to_pd foreign_second_restriction
     = Ok {| columns := ["a"; "b"]; rows := [[VInt 1; VInt 2]] |}
  /\ _construct_sql foreign_first_restriction = Raise CrossTableReference.
Proof.
  repeat split; try reflexivity.
  simpl. auto.
Qed.

(** C2, on the code: the newer WRITE holds [(id=1, v=100)], which the
    restriction [v > 150] excludes; after its step Seen has no row, its key
    is not recorded, and the older row [(id=1, v=200)] with the same key is
    materialized. *)
Theorem excluded_row_does_not_shadow :
  deduplication_keys (_table_schema shadowed_by_excluded_row) = Some ["id"]
  /\ (exists p s,
        _construct_sql shadowed_by_excluded_row = Ok p
        /\ merge_loop p (Some ["id"]) 0
             [write_entry ["id"; "v"] [[VInt 1; VInt 100]]] initial_state
           = Ok s
        /\ deduplication_keys_seen s
           = {| columns := ["id"; _indicator_column_name]; rows := [] |})
  /\ to_pd shadowed_by_excluded_row
     = Ok {| columns := ["id"; "v"]; rows := [[VInt 1; VInt 200]] |}.
Proof.
  split; [reflexivity | split; [ | reflexivity]].
  eexists. eexists. split; [reflexivity | ]. split; reflexivity.
Qed.

(** ** The merge loop *)

Lemma bind_ok {A B} (r : result A) (k : A -> result B) (b : B) :
  bind r k = Ok b -> exists a, r = Ok a /\ k a = Ok b.
Proof. destruct r as [a | e]; simpl; [eauto | discriminate]. Qed.

Lemma length_reindex (cols : list string) (df : DataFrame) :
  List.length (reindex cols df) = len df.
Proof. unfold reindex, len. apply length_map. Qed.

Lemma len_pd_concat_pair (a b : DataFrame) :
  len (pd_concat [a; b]) = (len a + len b)%nat.
Proof.
  unfold pd_concat, len at 1. simpl rows.
  rewrite app_nil_r, length_app, !length_reindex. reflexivity.
Qed.

Lemma len_assign (df : DataFrame) (c : string) (v : value) :
  len (assign df c v) = len df.
Proof.
  unfold assign, len. destruct (mem c (columns df)); simpl;
    apply length_map.
Qed.

Lemma merge_loop_app p keys i (l1 l2 : list DataFileEntry) s :
  merge_loop p keys i (l1 ++ l2) s
  = (s1 <- merge_loop p keys i l1 s ;;
     merge_loop p keys (i + List.length l1) l2 s1).
Proof.
  revert i s.
  induction l1 as [ | e l1 IH]; intros i s; simpl.
  - now rewrite Nat.add_0_r.
  - destruct (step p keys i e s) as [s' | err]; simpl; [ | reflexivity].
    rewrite IH. now rewrite Nat.add_succ_r.
Qed.

(** The loop over the reversed manifest [e :: newer] runs the newer entries
    and then the step of [e], at index [length newer]. *)
Lemma merge_loop_oldest p keys e (newer : list DataFileEntry) s :
  merge_loop p keys 0 (rev (e :: newer)) s
  = (s1 <- merge_loop p keys 0 (rev newer) s ;;
     step p keys (List.length newer) e s1).
Proof.
  simpl rev. rewrite merge_loop_app. simpl.
  rewrite length_rev.
  destruct (merge_loop p keys 0 (rev newer) s) as [s1 | err]; simpl;
    [ | reflexivity].
  now destruct (step p keys (List.length newer) e s1).
Qed.

(** What a successful step does to the collected results. *)
Lemma step_write_results p keys i fragment s s' :
  step_write p keys i fragment s = Ok s' ->
  exists st df,
    write_statement p keys i fragment s = Ok st
    /\ execute st = Ok df
    /\ partition_results s' = (partition_results s ++ [df])%list
    /\ deletes s' = deletes s.
Proof.
  unfold step_write. intros H.
  apply bind_ok in H as [st [Hst H]].
  apply bind_ok in H as [df [Hdf H]].
  exists st, df. rewrite Hst, Hdf.
  destruct keys as [ks | ].
  - apply bind_ok in H as [kf [_ H]]. injection H as <-. simpl. auto.
  - injection H as <-. simpl. auto.
Qed.

Lemma step_delete_results fragment s s' :
  step_delete fragment s = Ok s' ->
  partition_results s' = partition_results s
  /\ deduplication_keys_seen s' = deduplication_keys_seen s.
Proof.
  unfold step_delete.
  destruct (_ && _); [discriminate | ].
  intros [= <-]. simpl. auto.
Qed.

Lemma step_cases p keys i e s s' :
  step p keys i e s = Ok s' ->
  (is_write e = true /\ step_write p keys i (data_file e) s = Ok s')
  \/ (is_write e = false /\ data_file_type e = "delete"
      /\ step_delete (data_file e) s = Ok s').
Proof.
  unfold step, is_write.
  destruct (data_file_type e =? "write") eqn:Hw; [auto | ].
  destruct (String.eqb_spec (data_file_type e) "delete") as [Hd | Hd];
    [auto | discriminate].
Qed.

Lemma write_positions_shift (n : nat) (manifest : list DataFileEntry) :
  write_positions (S n) manifest = map S (write_positions n manifest).
Proof.
  revert n.
  induction manifest as [ | e newer IH]; intros n; simpl; [reflexivity | ].
  destruct (is_write e); simpl; now rewrite IH.
Qed.

Lemma survivors_at_newer p keys e (newer : list DataFileEntry) (k : nat) :
  survivors_at p keys (e :: newer) (S k) = survivors_at p keys newer k.
Proof. reflexivity. Qed.

(** The results the loop collects are, oldest first, the survivors of the
    WRITE entries at their positions. *)
Lemma merge_loop_survivors p keys (manifest : list DataFileEntry) s :
  merge_loop p keys 0 (rev manifest) initial_state = Ok s ->
  Forall2 (fun k df => survivors_at p keys manifest k = Ok df)
          (write_positions 0 manifest) (rev (partition_results s)).
Proof.
  revert s.
  induction manifest as [ | e newer IH]; intros s.
  - simpl. intros [= <-]. constructor.
  - rewrite merge_loop_oldest. intros H.
    apply bind_ok in H as [s1 [Hnewer Hstep]].
    specialize (IH s1 Hnewer).
    assert (Forall2 (fun k df => survivors_at p keys (e :: newer) k = Ok df)
                    (write_positions 1 newer) (rev (partition_results s1)))
      as Hshift.
    { rewrite write_positions_shift.
      clear -IH. induction IH; simpl; constructor; auto. }
    simpl write_positions.
    apply step_cases in Hstep as [[Hw Hstep] | [Hw [_ Hstep]]]; rewrite Hw.
    + apply step_write_results in Hstep as [st [df [Hst [Hdf [Hres _]]]]].
      rewrite Hres, rev_app_distr. simpl.
      constructor; [ | exact Hshift].
      unfold survivors_at. simpl.
      rewrite Hnewer. simpl. rewrite Hst. simpl. exact Hdf.
    + apply step_delete_results in Hstep as [-> _]. exact Hshift.
Qed.

Lemma write_statement_parts p keys i fragment s st :
  write_statement p keys i fragment s = Ok st ->
  from st = fragment
  /\ projection st = plan_columns p
  /\ restriction st = plan_filter p.
Proof.
  unfold write_statement.
  destruct (len (deduplication_keys_seen s) =? 0)%nat,
           (len (deletes s) =? 0)%nat;
    try (intros [= <-]; simpl; auto);
    intros H; apply bind_ok in H as [ks [_ H]];
    injection H as <-; simpl; auto.
Qed.

Lemma write_positions_are_writes (manifest : list DataFileEntry) :
  forall n k,
    In k (write_positions n manifest) ->
    (n <= k)%nat
    /\ exists e, nth_error manifest (k - n) = Some e /\ is_write e = true.
Proof.
  induction manifest as [ | e newer IH]; intros n k; simpl; [intros [] | ].
  assert (In k (write_positions (S n) newer) ->
          (n <= k)%nat
          /\ exists e', nth_error (e :: newer) (k - n) = Some e'
                        /\ is_write e' = true) as Hnewer.
  { intros Hin. apply IH in Hin as [Hle [e' [Hnth Hw]]].
    split; [lia | ]. exists e'. split; [ | assumption].
    replace (k - n)%nat with (S (k - S n)) by lia. exact Hnth. }
  destruct (is_write e) eqn:Hw; [ | exact Hnewer].
  intros [<- | Hin]; [ | auto].
  split; [lia | ]. exists e. rewrite Nat.sub_diag. auto.
Qed.

Lemma survivors_at_drawn p keys (manifest : list DataFileEntry) k e df :
  nth_error manifest k = Some e ->
  survivors_at p keys manifest k = Ok df ->
  drawn_from p e df.
Proof.
  unfold survivors_at. intros -> H.
  apply bind_ok in H as [s [_ H]].
  apply bind_ok in H as [st [Hst H]].
  apply write_statement_parts in Hst as [Hfrom [Hproj _]].
  unfold execute in H. apply bind_ok in H as [_ [_ H]].
  injection H as <-. exists (kept st). simpl.
  now rewrite Hfrom, Hproj.
Qed.

Lemma Forall2_strengthen {A B} (R Q : A -> B -> Prop) (l1 : list A)
  (l2 : list B) :
  Forall2 R l1 l2 ->
  (forall a b, In a l1 -> R a b -> Q a b) ->
  Forall2 Q l1 l2.
Proof.
  induction 1 as [ | a b l1 l2 HR H12 IH]; intros HQ; constructor.
  - apply HQ; [left; reflexivity | assumption].
  - apply IH. intros a' b' Hin. apply HQ. now right.
Qed.

Lemma to_pd_fragment_results (t : NdbTable) :
  to_pd t = (frs <- fragment_results t ;; Ok (put_together frs)).
Proof.
  unfold to_pd, fragment_results.
  destruct (_construct_sql t) as [p | err]; simpl; [ | reflexivity].
  now destruct (merge_loop _ _ _ _ _).
Qed.

Lemma put_together_rows (frs : list DataFrame) :
  rows (put_together frs)
  = flat_map (reindex (columns (put_together frs))) frs.
Proof.
  unfold put_together.
  destruct frs as [ | df frs]; reflexivity.
Qed.

Lemma Forall2_length_nil {A B} (R : A -> B -> Prop) (l : list B) :
  Forall2 R [] l -> l = [].
Proof. now inversion 1. Qed.

(** C6. Whenever materialize returns, its result is the concatenation, in
    manifest order (oldest first), of the surviving rows of each WRITE
    entry: the survivors of the WRITE at position [k] are rows of that
    entry, in its order, obtained by querying it against what the entries
    newer than [k] accumulate.  With no WRITE entry the result is the empty
    relation, and over an empty manifest materialize returns the empty
    relation as soon as the plan compiles. *)
Theorem to_pd_concatenates_in_manifest_order (t : NdbTable) :
  (forall r, to_pd t = Ok r ->
     exists p frs,
       _construct_sql t = Ok p
       /\ Forall2 (fun k df =>
                     survivors_at p (deduplication_keys (_table_schema t))
                                  (_data_list t) k = Ok df
                     /\ exists e, nth_error (_data_list t) k = Some e
                                  /\ is_write e = true
                                  /\ drawn_from p e df)
                  (write_positions 0 (_data_list t)) frs
       /\ r = put_together frs
       /\ rows r = flat_map (reindex (columns r)) frs
       /\ (write_positions 0 (_data_list t) = [] -> r = empty_frame))
  /\ (_data_list t = [] ->
      to_pd t = (p <- _construct_sql t ;; Ok empty_frame)).
Proof.
  split.
  - intros r H. unfold to_pd in H.
    apply bind_ok in H as [p [Hp H]].
    apply bind_ok in H as [s [Hs H]].
    injection H as <-.
    pose proof (merge_loop_survivors _ _ _ _ Hs) as Hfrs.
    exists p, (rev (partition_results s)).
    repeat split; auto using put_together_rows.
    + apply Forall2_strengthen with (1 := Hfrs).
      intros k df Hin Hdf. split; [assumption | ].
      apply write_positions_are_writes in Hin as [_ [e [Hnth Hw]]].
      rewrite Nat.sub_0_r in Hnth.
      exists e. eauto using survivors_at_drawn.
    + intros Hnone. rewrite Hnone in Hfrs.
      now rewrite (Forall2_length_nil _ _ Hfrs).
  - intros Hempty. unfold to_pd. rewrite Hempty. simpl.
    now destruct (_construct_sql t).
Qed.

Lemma to_pd_concatenates_in_manifest_order_witness :
  exists p frs,
    _construct_sql S2_table = Ok p
    /\ Forall2 (fun k df =>
                  survivors_at p (Some ["id"]) (_data_list S2_table) k = Ok df
                  /\ exists e, nth_error (_data_list S2_table) k = Some e
                               /\ is_write e = true
                               /\ drawn_from p e df)
               [0; 1]%nat frs
    /\ rows {| columns := ["id"; "v"];
               rows := [[VInt 2; VInt 200]; [VInt 1; VInt 101];
                        [VInt 3; VInt 300]] |}
       = flat_map (reindex ["id"; "v"]) frs.
Proof.
  destruct (proj1 (to_pd_concatenates_in_manifest_order S2_table)
                  {| columns := ["id"; "v"];
                     rows := [[VInt 2; VInt 200]; [VInt 1; VInt 101];
                              [VInt 3; VInt 300]] |} eq_refl)
    as [p [frs [Hp [Hfrs [_ [Hrows _]]]]]].
  exists p, frs. auto.
Defined.

(** ** Deduplication keys and the projection *)

Lemma mem_In (a : string) (xs : list string) : mem a xs = true <-> In a xs.
Proof.
  unfold mem. rewrite existsb_exists. split.
  - intros [x [Hin Heq]]. apply String.eqb_eq in Heq. now subst.
  - intros Hin. exists a. split; [assumption | apply String.eqb_refl].
Qed.

Lemma execute_columns (st : statement) (df : DataFrame) :
  execute st = Ok df ->
  columns df = match projection st with
               | Some cols => cols
               | None => columns (from st)
               end.
Proof.
  unfold execute. intros H.
  apply bind_ok in H as [_ [_ H]].
  now injection H as <-.
Qed.

Lemma construct_sql_columns (t : NdbTable) (p : plan) :
  _construct_sql t = Ok p -> plan_columns p = last_projection (_ops t).
Proof.
  unfold _construct_sql. intros H.
  apply bind_ok in H as [[clause C] [Hs H]].
  apply bind_ok in H as [w [_ H]].
  injection H as <-. simpl.
  rewrite compile_select_walk in Hs.
  destruct (projection_walk None (_ops t)) as [C' | err] eqn:HC;
    [ | discriminate].
  injection Hs as _ <-. now apply projection_walk_last.
Qed.

(** When the projection lacks a key, the step of a WRITE raises. *)
Lemma step_write_key_missing p ks cols i fragment s :
  plan_columns p = Some cols ->
  (exists k, In k ks /\ ~ In k cols) ->
  exists err, step_write p (Some ks) i fragment s = Raise err.
Proof.
  intros Hcols [k [Hk Hmissing]]. unfold step_write.
  destruct (write_statement p (Some ks) i fragment s) as [st | err] eqn:Hst;
    simpl; [ | eauto].
  destruct (execute st) as [df | err] eqn:Hdf; simpl; [ | eauto].
  apply write_statement_parts in Hst as [_ [Hproj _]].
  apply execute_columns in Hdf. rewrite Hproj, Hcols in Hdf.
  unfold getitem.
  destruct (filter (fun c => negb (mem c (columns df))) ks) as [ | c missing]
    eqn:Hfilter; simpl; [ | eauto].
  exfalso.
  assert (In k (filter (fun c => negb (mem c (columns df))) ks)) as Hin.
  { apply filter_In. split; [assumption | ].
    rewrite Hdf. destruct (mem k cols) eqn:Hmem; [ | reflexivity].
    apply mem_In in Hmem. contradiction. }
  rewrite Hfilter in Hin. destruct Hin.
Qed.

Lemma merge_loop_raises_at_write p keys (files : list DataFileEntry) :
  (forall i fragment s, exists err,
      step_write p keys i fragment s = Raise err) ->
  (exists e, In e files /\ data_file_type e = "write") ->
  forall i s, exists err, merge_loop p keys i files s = Raise err.
Proof.
  intros Hraises [e [Hin Hwrite]].
  induction files as [ | f files IH]; [destruct Hin | ].
  intros i s. simpl.
  destruct (step p keys i f s) as [s' | err] eqn:Hstep; simpl; [ | eauto].
  destruct Hin as [-> | Hin].
  - unfold step in Hstep. rewrite Hwrite in Hstep. simpl in Hstep.
    destruct (Hraises i (data_file e) s) as [err Herr]. congruence.
  - apply IH. assumption.
Qed.

Lemma mem_lower (k : string) (cols : list string) :
  mem (lower k) (map lower cols) = false -> ~ In k cols.
Proof.
  intros Hmem Hin.
  assert (mem (lower k) (map lower cols) = true) as H
    by (apply mem_In; now apply in_map).
  congruence.
Qed.

(** C10. When the schema designates deduplication keys, the last
    ProjectColumns of the handle leaves one of them out and the manifest
    holds a WRITE entry, materialize raises.  The projection is a set of
    column names: names that their quoted text denotes, no two of them the
    same up to ASCII case.  It leaves a key out when none of its names is
    the key up to ASCII case, the way the engine takes a name for a
    column. *)
Theorem dropped_key_column_raises (t : NdbTable) (ks cols : list string) :
  deduplication_keys (_table_schema t) = Some ks ->
  last_projection (_ops t) = Some cols ->
  projection_in_domain (Some cols) = true ->
  (exists k, In k ks /\ mem (lower k) (map lower cols) = false) ->
  (exists e, In e (_data_list t) /\ data_file_type e = "write") ->
  exists err, to_pd t = Raise err.
Proof.
  intros Hkeys Hlast _ [k [Hk Hmem]] [e [Hin Hwrite]].
  assert (exists k, In k ks /\ ~ In k cols) as Hmissing
    by (exists k; split; [assumption | now apply mem_lower]).
  unfold to_pd.
  destruct (_construct_sql t) as [p | err] eqn:Hp; simpl; [ | eauto].
  rewrite Hkeys.
  destruct (merge_loop_raises_at_write p (Some ks) (rev (_data_list t)))
    with (i := 0%nat) (s := initial_state) as [err Herr].
  - intros i fragment s. apply step_write_key_missing with (cols := cols).
    + rewrite (construct_sql_columns _ _ Hp). exact Hlast.
    + exact Hmissing.
  - exists e. split; [now apply in_rev; rewrite rev_involutive | assumption].
  - rewrite Herr. simpl. eauto.
Qed.

Lemma dropped_key_column_raises_witness :
  exists err, to_pd key_projected_away = Raise err.
Proof.
  apply (dropped_key_column_raises key_projected_away ["id"] ["v"]).
  - reflexivity.
  - reflexivity.
  - reflexivity.
  - exists "id". split; [simpl; auto | reflexivity].
  - eexists. split; [left; reflexivity | reflexivity].
Defined.

(** On the example the exception is pandas' [KeyError] for the key. *)
Example key_projected_away_key_error :
  to_pd key_projected_away = Raise (KeyError ["id"]).
Proof. reflexivity. Qed.

(** ** The comparison of DELETE columns *)

Lemma leb_trans (a b c : string) :
  String.leb a b = true -> String.leb b c = true -> String.leb a c = true.
Proof.
  unfold String.leb.
  destruct (String.compare a b) eqn:Hab; [ | | discriminate].
  - apply String_as_OT.cmp_eq in Hab. now subst.
  - destruct (String.compare b c) eqn:Hbc; [ | | discriminate]; intros _ _.
    + apply String_as_OT.cmp_eq in Hbc. subst. now rewrite Hab.
    + apply String_as_OT.cmp_lt in Hab, Hbc.
      pose proof (String_as_OT.lt_trans _ _ _ Hab Hbc) as Hac.
      apply String_as_OT.cmp_lt in Hac.
      unfold String_as_OT.cmp in Hac. now rewrite Hac.
Qed.

Lemma leb_false_flip (a b : string) :
  String.leb a b = false -> String.leb b a = true.
Proof.
  intros H. destruct (String.leb_total a b) as [H' | H']; congruence.
Qed.

Lemma insert_sorted_permutation (a : string) (l : list string) :
  Permutation (insert_sorted a l) (a :: l).
Proof.
  induction l as [ | b l IH]; simpl; [reflexivity | ].
  destruct (String.leb a b); [reflexivity | ].
  rewrite IH. apply perm_swap.
Qed.

Lemma sorted_permutation (l : list string) : Permutation (sorted l) l.
Proof.
  induction l as [ | a l IH]; simpl; [reflexivity | ].
  rewrite insert_sorted_permutation. now constructor.
Qed.

Lemma insert_sorted_swap (a b : string) (l : list string) :
  insert_sorted a (insert_sorted b l) = insert_sorted b (insert_sorted a l).
Proof.
  induction l as [ | c l IH]; simpl.
  - destruct (String.leb a b) eqn:Hab, (String.leb b a) eqn:Hba;
      try reflexivity.
    + now rewrite (String.leb_antisym _ _ Hab Hba).
    + apply leb_false_flip in Hab. congruence.
  - destruct (String.leb b c) eqn:Hbc, (String.leb a c) eqn:Hac; simpl;
      rewrite ?Hbc, ?Hac.
    + destruct (String.leb a b) eqn:Hab, (String.leb b a) eqn:Hba;
        try reflexivity.
      * now rewrite (String.leb_antisym _ _ Hab Hba).
      * apply leb_false_flip in Hab. congruence.
    + destruct (String.leb a b) eqn:Hab.
      * rewrite (leb_trans _ _ _ Hab Hbc) in Hac. discriminate.
      * reflexivity.
    + destruct (String.leb b a) eqn:Hba.
      * rewrite (leb_trans _ _ _ Hba Hac) in Hbc. discriminate.
      * reflexivity.
    + now rewrite IH.
Qed.

Lemma sorted_of_permutation (l1 l2 : list string) :
  Permutation l1 l2 -> sorted l1 = sorted l2.
Proof.
  induction 1; simpl; try congruence.
  apply insert_sorted_swap.
Qed.

(** [sorted(a) != sorted(b)] compares the labels as multisets. *)
Lemma sorted_eqb_permutation (a b : list string) :
  list_string_eqb (sorted a) (sorted b) = true <-> Permutation a b.
Proof.
  unfold list_string_eqb.
  destruct (list_eq_dec string_dec (sorted a) (sorted b)) as [Heq | Hne];
    split; intros H; try reflexivity; try discriminate.
  - rewrite <- (sorted_permutation a), <- (sorted_permutation b), Heq.
    reflexivity.
  - elim Hne. now apply sorted_of_permutation.
Qed.

Lemma step_delete_spec (fragment : DataFrame) (s : merge_state) :
  let d := assign fragment _indicator_column_name (VInt 1) in
  let extended :=
    {| partition_results := partition_results s;
       deduplication_keys_seen := deduplication_keys_seen s;
       deletes := pd_concat [deletes s; d] |} in
  ((0 < len (deletes s))%nat ->
   ~ Permutation (columns (deletes s)) (columns d) ->
   step_delete fragment s = Raise HeterogeneousDeletes)
  /\ ((0 < len (deletes s))%nat ->
      Permutation (columns (deletes s)) (columns d) ->
      step_delete fragment s = Ok extended)
  /\ (len (deletes s) = 0%nat -> step_delete fragment s = Ok extended).
Proof.
  intros d extended. unfold step_delete. fold d.
  destruct (list_string_eqb (sorted (columns (deletes s))) (sorted (columns d)))
    eqn:Heq.
  - apply sorted_eqb_permutation in Heq.
    rewrite andb_false_r. repeat split; intros; try reflexivity.
    contradiction.
  - assert (~ Permutation (columns (deletes s)) (columns d)) as Hne.
    { intros HP. apply sorted_eqb_permutation in HP. congruence. }
    repeat split; intros H; try intros H'.
    + apply Nat.ltb_lt in H. now rewrite H.
    + contradiction.
    + rewrite H. reflexivity.
Qed.

Lemma step_on_delete p keys i (e : DataFileEntry) (s : merge_state) :
  data_file_type e = "delete" ->
  step p keys i e s = step_delete (data_file e) s.
Proof. unfold step. now intros ->. Qed.

(** A DELETE step that raises ends the materialization. *)
Lemma to_pd_raises_at_delete (t : NdbTable) (p : plan)
  (older newer : list DataFileEntry) (d : DataFileEntry) (s : merge_state)
  (err : exn) :
  _construct_sql t = Ok p ->
  _data_list t = (older ++ d :: newer)%list ->
  data_file_type d = "delete" ->
  merge_loop p (deduplication_keys (_table_schema t)) 0 (rev newer)
             initial_state = Ok s ->
  step_delete (data_file d) s = Raise err ->
  to_pd t = Raise err.
Proof.
  intros Hp Hlist Hd Hnewer Hraise.
  unfold to_pd. rewrite Hp, Hlist. simpl bind.
  rewrite rev_app_distr. simpl rev. rewrite <- app_assoc.
  rewrite merge_loop_app, Hnewer. simpl.
  now rewrite (step_on_delete _ _ _ _ _ Hd), Hraise.
Qed.

(** The comparison where the guard lets it run.  Let the plan compile and
    the traversal of the entries newer than a DELETE entry [d] succeed,
    leaving an accumulated Deletes relation with at least one row.  If its
    labels and those of [d] (indicator included) differ as multisets,
    materialize fails with HeterogeneousDeletes; if they are the same labels
    in any order, the step of [d] does not fail and extends Deletes. *)
Theorem delete_columns_compared_once_rows_accumulated
  (t : NdbTable) (p : plan) (older newer : list DataFileEntry)
  (d : DataFileEntry) (s : merge_state) :
  _construct_sql t = Ok p ->
  _data_list t = (older ++ d :: newer)%list ->
  data_file_type d = "delete" ->
  merge_loop p (deduplication_keys (_table_schema t)) 0 (rev newer)
             initial_state = Ok s ->
  (0 < len (deletes s))%nat ->
  let d' := assign (data_file d) _indicator_column_name (VInt 1) in
  (~ Permutation (columns (deletes s)) (columns d') ->
   to_pd t = Raise HeterogeneousDeletes)
  /\ (Permutation (columns (deletes s)) (columns d') ->
      step p (deduplication_keys (_table_schema t)) (List.length newer) d s
      = Ok {| partition_results := partition_results s;
              deduplication_keys_seen := deduplication_keys_seen s;
              deletes := pd_concat [deletes s; d'] |}).
Proof.
  intros Hp Hlist Hd Hnewer Hrows d'.
  destruct (step_delete_spec (data_file d) s) as [Hdiff [Hsame _]].
  rewrite (step_on_delete _ _ _ _ _ Hd).
  split; [ | auto].
  intros Hne. eapply to_pd_raises_at_delete; eauto.
Qed.

Lemma delete_columns_compared_once_rows_accumulated_witness :
  to_pd unlike_deletes = Raise HeterogeneousDeletes
  /\ exists p s,
       _construct_sql reordered_deletes = Ok p
       /\ merge_loop p None 0 [delete_entry ["b"; "a"] [[VInt 9; VInt 9]]]
                     initial_state = Ok s
       /\ is_ok (step p None 1 (delete_entry ["a"; "b"] [[VInt 1; VInt 2]]) s)
          = true.
Proof.
  split.
  - refine (proj1 (delete_columns_compared_once_rows_accumulated
                     unlike_deletes _ [] [delete_entry ["name"] [[VStr "x"]]]
                     (delete_entry ["id"] [[VInt 1]]) _
                     eq_refl eq_refl eq_refl eq_refl _) _).
    + vm_compute. lia.
    + vm_compute. intros HP.
      apply (Permutation_in "name") in HP; [ | left; reflexivity].
      destruct HP as [H | [H | []]]; discriminate H.
  - eexists. eexists. split; [reflexivity | ]. split; [reflexivity | ].
    assert (Permutation ["b"; "a"; _indicator_column_name]
                        ["a"; "b"; _indicator_column_name]) as HP
      by apply perm_swap.
    exact (f_equal is_ok
             (proj2 (delete_columns_compared_once_rows_accumulated
                       reordered_deletes _
                       [write_entry ["a"; "b"]
                          [[VInt 1; VInt 2]; [VInt 3; VInt 4]]]
                       [delete_entry ["b"; "a"] [[VInt 9; VInt 9]]]
                       (delete_entry ["a"; "b"] [[VInt 1; VInt 2]]) _
                       eq_refl eq_refl eq_refl eq_refl
                       (Nat.lt_0_succ 0))
                    HP)).
Defined.

(** *** Two DELETE fragments

    When the newest DELETE of the manifest holds a row, its labels are the
    accumulated labels from then on, and an older DELETE with other labels
    is where materialize stops. *)

Lemma union_columns_fresh (l acc : list string) :
  NoDup (acc ++ l) -> union_columns acc l = (acc ++ l)%list.
Proof.
  revert acc.
  induction l as [ | c l IH]; intros acc Hnd; simpl.
  - now rewrite app_nil_r.
  - destruct (mem c acc) eqn:Hmem.
    + apply mem_In in Hmem. apply NoDup_remove_2 in Hnd.
      elim Hnd. apply in_or_app. now left.
    + rewrite IH; rewrite <- app_assoc; simpl; auto.
Qed.

Lemma union_columns_known (l acc : list string) :
  (forall c, In c l -> In c acc) -> union_columns acc l = acc.
Proof.
  induction l as [ | c l IH]; intros Hin; simpl; [reflexivity | ].
  assert (mem c acc = true) as -> by (apply mem_In, Hin; now left).
  apply IH. intros c' Hc'. apply Hin. now right.
Qed.

Lemma pd_concat_pair_columns (a b : DataFrame) :
  columns (pd_concat [a; b])
  = union_columns (union_columns [] (columns a)) (columns b).
Proof. reflexivity. Qed.

Lemma step_keeps_delete_columns p keys i e s s' :
  (0 < len (deletes s))%nat ->
  NoDup (columns (deletes s)) ->
  step p keys i e s = Ok s' ->
  columns (deletes s') = columns (deletes s) /\ (0 < len (deletes s'))%nat.
Proof.
  intros Hrows Hnd Hstep.
  apply step_cases in Hstep as [[_ Hstep] | [_ [_ Hstep]]].
  - apply step_write_results in Hstep as [st [df [_ [_ [_ ->]]]]]. auto.
  - destruct (step_delete_spec (data_file e) s) as [Hdiff [Hsame _]].
    destruct (list_string_eqb
                (sorted (columns (deletes s)))
                (sorted (columns (assign (data_file e)
                                         _indicator_column_name (VInt 1)))))
      eqn:Heq.
    + apply sorted_eqb_permutation in Heq.
      rewrite (Hsame Hrows Heq) in Hstep. injection Hstep as <-.
      cbn [deletes]. rewrite pd_concat_pair_columns, len_pd_concat_pair.
      split; [ | lia].
      rewrite (union_columns_fresh (columns (deletes s)) []) by assumption.
      simpl. apply union_columns_known.
      intros c Hc. apply Permutation_in with (2 := Hc). now symmetry.
    + rewrite Hdiff in Hstep; [discriminate | assumption | ].
      intros HP. apply sorted_eqb_permutation in HP. congruence.
Qed.

Lemma merge_loop_keeps_delete_columns p keys (files : list DataFileEntry) :
  forall i s s',
    (0 < len (deletes s))%nat ->
    NoDup (columns (deletes s)) ->
    merge_loop p keys i files s = Ok s' ->
    columns (deletes s') = columns (deletes s) /\ (0 < len (deletes s'))%nat.
Proof.
  induction files as [ | e files IH]; intros i s s' Hrows Hnd; simpl.
  - intros [= <-]. auto.
  - intros H. apply bind_ok in H as [s1 [Hstep Hloop]].
    destruct (step_keeps_delete_columns _ _ _ _ _ _ Hrows Hnd Hstep)
      as [Hcols Hrows1].
    rewrite <- Hcols in Hnd.
    destruct (IH _ _ _ Hrows1 Hnd Hloop) as [Hcols' Hrows'].
    split; [congruence | assumption].
Qed.

(** If the accumulated Deletes relation is still [pd.DataFrame()] when the
    traversal reaches the DELETE [d_new] (no DELETE is newer), [d_new]
    holds a row, and an older DELETE [d_old] has other labels, then
    materialize fails with HeterogeneousDeletes as soon as the entries down
    to [d_old] raise nothing else. *)
Corollary unlike_delete_after_newest_delete
  (t : NdbTable) (p : plan) (older mid newer : list DataFileEntry)
  (d_old d_new : DataFileEntry) (s0 s : merge_state) :
  let keys := deduplication_keys (_table_schema t) in
  let labels e :=
    columns (assign (data_file e) _indicator_column_name (VInt 1)) in
  _construct_sql t = Ok p ->
  _data_list t = (older ++ d_old :: mid ++ d_new :: newer)%list ->
  data_file_type d_old = "delete" ->
  data_file_type d_new = "delete" ->
  merge_loop p keys 0 (rev newer) initial_state = Ok s0 ->
  deletes s0 = empty_frame ->
  (0 < len (data_file d_new))%nat ->
  NoDup (labels d_new) ->
  ~ Permutation (labels d_new) (labels d_old) ->
  merge_loop p keys 0 (rev (mid ++ d_new :: newer)) initial_state = Ok s ->
  to_pd t = Raise HeterogeneousDeletes.
Proof.
  intros keys labels Hp Hlist Hold Hnew Hnewer Hempty Hrows Hnd Hne Hmid.
  assert (columns (deletes s) = labels d_new /\ (0 < len (deletes s))%nat)
    as [Hcols Hlen].
  { rewrite rev_app_distr in Hmid. simpl rev in Hmid.
    rewrite <- app_assoc, merge_loop_app, Hnewer in Hmid. simpl in Hmid.
    apply bind_ok in Hmid as [s1 [Hstep Hmid]].
    rewrite (step_on_delete _ _ _ _ _ Hnew) in Hstep.
    destruct (step_delete_spec (data_file d_new) s0) as [_ [_ Hskip]].
    rewrite Hskip in Hstep by (now rewrite Hempty).
    injection Hstep as <-.
    apply merge_loop_keeps_delete_columns in Hmid; cbn [deletes] in *.
    - rewrite pd_concat_pair_columns, Hempty in Hmid. simpl in Hmid.
      rewrite (union_columns_fresh _ []) in Hmid by assumption.
      exact Hmid.
    - rewrite len_pd_concat_pair, len_assign. lia.
    - rewrite pd_concat_pair_columns, Hempty. simpl.
      now rewrite (union_columns_fresh _ []) by assumption. }
  eapply to_pd_raises_at_delete with (newer := (mid ++ d_new :: newer)%list);
    eauto.
  apply (proj1 (step_delete_spec (data_file d_old) s)); [assumption | ].
  now rewrite Hcols.
Qed.

(** C8, on the code.  The manifest holds two DELETE fragments, the older on
    [id], the newer on [name].  When the newer one holds a row, materialize
    raises HeterogeneousDeletes, as the claim has it.  When the newer one
    holds no row, the accumulated Deletes are empty at the older one, the
    guard [len(deletes) > 0] skips the comparison of the columns, and
    materialize returns. *)
Theorem empty_newer_delete_skips_column_comparison :
  map (fun e => (data_file_type e, columns (data_file e)))
      (_data_list empty_newer_delete)
  = [("delete", ["id"]); ("delete", ["name"])]
  /\ ~ Permutation ["id"] ["name"]
  /\ to_pd empty_newer_delete = Ok empty_frame
  /\ to_pd unlike_deletes = Raise HeterogeneousDeletes.
Proof.
  split; [reflexivity | split; [ | split; reflexivity]].
  intros HP. apply (Permutation_in "id") in HP; [ | left; reflexivity].
  destruct HP as [H | []]. discriminate H.
Qed.

(** After the skipped comparison the Deletes relation is on the union of
    the labels, [name] and [id], with no [name] for the row of the older
    DELETE; the statement of an older WRITE joins on both, and, in the model
    of the engine, the DELETE on [id] removes nothing. *)
Example older_delete_removes_nothing :
  to_pd unlike_deletes_over_write
  = Ok {| columns := ["id"; "name"]; rows := [[VInt 1; VStr "a"]] |}.
Proof. reflexivity. Qed.

(** The same labels in another order are accepted, and the DELETE applies. *)
Example reordered_deletes_accepted :
  to_pd reordered_deletes
  = Ok {| columns := ["a"; "b"]; rows := [[VInt 3; VInt 4]] |}.
Proof. reflexivity. Qed.

(** ** An empty list of deduplication keys *)

Lemma total_rows_app (l1 l2 : list DataFrame) :
  total_rows (l1 ++ l2) = (total_rows l1 + total_rows l2)%nat.
Proof. unfold total_rows. now rewrite map_app, list_sum_app. Qed.

Lemma total_rows_single (df : DataFrame) : total_rows [df] = len df.
Proof. unfold total_rows. simpl. lia. Qed.

Lemma len_key_frame (labels : list string) (df : DataFrame) :
  len {| columns := labels; rows := reindex labels df |} = len df.
Proof. unfold len at 1. simpl. apply length_reindex. Qed.

Lemma total_rows_rev (l : list DataFrame) : total_rows (rev l) = total_rows l.
Proof.
  induction l as [ | df l IH]; [reflexivity | ].
  simpl rev. rewrite total_rows_app, IH. unfold total_rows. simpl. lia.
Qed.

Lemma total_rows_tl_rev (l : list DataFrame) :
  total_rows (tl (rev l)) = total_rows (removelast l).
Proof.
  destruct l as [ | df l] using rev_ind; [reflexivity | ].
  rewrite rev_app_distr, removelast_last. simpl. apply total_rows_rev.
Qed.

(** While no key has been seen, the statement does not depend on the keys. *)
Lemma write_statement_nothing_seen p keys keys' i fragment s s' :
  len (deduplication_keys_seen s) = 0%nat ->
  len (deduplication_keys_seen s') = 0%nat ->
  deletes s = deletes s' ->
  write_statement p keys i fragment s = write_statement p keys' i fragment s'.
Proof.
  intros Hs Hs' Hd. unfold write_statement. now rewrite Hs, Hs', Hd.
Qed.

(** Once a key row has been seen, the join on the empty key list has an
    empty condition, and the engine refuses the statement. *)
Lemma step_write_empty_keys_after_rows p i fragment s :
  len (deduplication_keys_seen s) <> 0%nat ->
  step_write p (Some []) i fragment s = Raise (DuckDBError ParserError).
Proof.
  intros Hseen. unfold step_write, write_statement.
  apply Nat.eqb_neq in Hseen. rewrite Hseen.
  destruct (len (deletes s) =? 0)%nat; simpl; unfold execute, check_statement;
    simpl; rewrite ?orb_true_r; reflexivity.
Qed.

Lemma step_write_empty_keys p i fragment s :
  len (deduplication_keys_seen s) = 0%nat ->
  step_write p (Some []) i fragment s
  = (st <- write_statement p None i fragment s ;;
     df <- execute st ;;
     Ok {| partition_results := (partition_results s ++ [df])%list;
           deduplication_keys_seen :=
             pd_concat [deduplication_keys_seen s;
                        assign {| columns := []; rows := reindex [] df |}
                               _indicator_column_name (VInt 1)];
           deletes := deletes s |}).
Proof.
  intros Hseen. unfold step_write.
  rewrite (write_statement_nothing_seen p (Some []) None i fragment s s)
    by auto.
  destruct (write_statement p None i fragment s) as [st | err]; simpl;
    [ | reflexivity].
  destruct (execute st) as [df | err]; reflexivity.
Qed.

Lemma step_empty_keys_forward p i e absent empty empty' :
  related absent empty ->
  rows_only_in_last (partition_results absent) ->
  step p (Some []) i e empty = Ok empty' ->
  exists absent',
    step p None i e absent = Ok absent'
    /\ related absent' empty'
    /\ rows_only_in_last (partition_results absent').
Proof.
  intros [Hres [Hdel [Hnone Hcount]]] Hlast Hstep.
  apply step_cases in Hstep as [[Hw Hstep] | [Hw [Hd Hstep]]].
  - destruct (Nat.eq_dec (len (deduplication_keys_seen empty)) 0)
      as [Hseen | Hseen].
    + rewrite step_write_empty_keys in Hstep by assumption.
      apply bind_ok in Hstep as [st [Hst Hstep]].
      apply bind_ok in Hstep as [df [Hdf Hstep]].
      injection Hstep as <-.
      unfold step. unfold is_write in Hw. rewrite Hw. unfold step_write.
      rewrite (write_statement_nothing_seen p None None i (data_file e)
                 absent empty) by assumption.
      rewrite Hst. simpl. rewrite Hdf. simpl.
      eexists. split; [reflexivity | ].
      unfold related, rows_only_in_last. simpl.
      rewrite Hres, removelast_last, len_pd_concat_pair, len_assign,
        total_rows_app.
      repeat split; auto; [ | lia].
      rewrite Hcount, total_rows_single, len_key_frame. reflexivity.
    + rewrite step_write_empty_keys_after_rows in Hstep by assumption.
      discriminate.
  - unfold step. unfold is_write in Hw. rewrite Hw, Hd. simpl.
    unfold step_delete in *. rewrite Hdel.
    destruct (_ && _); [discriminate | ].
    injection Hstep as <-. eexists. split; [reflexivity | ].
    unfold related. simpl. rewrite Hres in *. auto.
Qed.

Lemma step_empty_keys_backward p i e absent absent' empty :
  related absent empty ->
  step p None i e absent = Ok absent' ->
  (is_write e = true -> total_rows (partition_results absent) = 0%nat) ->
  exists empty',
    step p (Some []) i e empty = Ok empty' /\ related absent' empty'.
Proof.
  intros [Hres [Hdel [Hnone Hcount]]] Hstep Hguard.
  apply step_cases in Hstep as [[Hw Hstep] | [Hw [Hd Hstep]]].
  - specialize (Hguard Hw). rewrite Hres in Hguard.
    assert (len (deduplication_keys_seen empty) = 0%nat) as Hseen by lia.
    unfold step. unfold is_write in Hw. rewrite Hw.
    rewrite step_write_empty_keys by assumption.
    unfold step_write in Hstep.
    rewrite (write_statement_nothing_seen p None None i (data_file e)
               absent empty) in Hstep by assumption.
    apply bind_ok in Hstep as [st [Hst Hstep]].
    apply bind_ok in Hstep as [df [Hdf Hstep]].
    injection Hstep as <-.
    rewrite Hst. simpl. rewrite Hdf. simpl.
    eexists. split; [reflexivity | ].
    unfold related. simpl.
    rewrite Hres, len_pd_concat_pair, len_assign, total_rows_app.
    repeat split; auto.
    rewrite Hcount, total_rows_single, len_key_frame. reflexivity.
  - unfold step. unfold is_write in Hw. rewrite Hw, Hd. simpl.
    unfold step_delete in *. rewrite <- Hdel.
    destruct (_ && _); [discriminate | ].
    injection Hstep as <-. eexists. split; [reflexivity | ].
    unfold related. simpl. auto.
Qed.

Lemma step_extends_results p keys i e s s' :
  step p keys i e s = Ok s' ->
  exists more,
    partition_results s' = (partition_results s ++ more)%list
    /\ (is_write e = true -> more <> []).
Proof.
  intros Hstep.
  apply step_cases in Hstep as [[Hw Hstep] | [Hw [_ Hstep]]].
  - apply step_write_results in Hstep as [st [df [_ [_ [Hres _]]]]].
    exists [df]. split; [assumption | discriminate].
  - apply step_delete_results in Hstep as [Hres _].
    exists []. rewrite app_nil_r. split; [assumption | congruence].
Qed.

Lemma merge_loop_extends_results p keys (files : list DataFileEntry) :
  forall i s s',
    merge_loop p keys i files s = Ok s' ->
    exists more, partition_results s' = (partition_results s ++ more)%list.
Proof.
  induction files as [ | e files IH]; intros i s s'; simpl.
  - intros [= <-]. exists []. now rewrite app_nil_r.
  - intros H. apply bind_ok in H as [s1 [Hstep Hloop]].
    apply step_extends_results in Hstep as [more1 [H1 _]].
    apply IH in Hloop as [more2 H2].
    exists (more1 ++ more2)%list. now rewrite H2, H1, app_assoc.
Qed.

Lemma merge_loop_empty_keys_forward p (files : list DataFileEntry) :
  forall i absent empty empty',
    related absent empty ->
    rows_only_in_last (partition_results absent) ->
    merge_loop p (Some []) i files empty = Ok empty' ->
    exists absent',
      merge_loop p None i files absent = Ok absent'
      /\ related absent' empty'
      /\ rows_only_in_last (partition_results absent').
Proof.
  induction files as [ | e files IH]; intros i absent empty empty' HR Hlast;
    simpl.
  - intros [= <-]. eauto.
  - intros H. apply bind_ok in H as [empty1 [Hstep Hloop]].
    destruct (step_empty_keys_forward _ _ _ _ _ _ HR Hlast Hstep)
      as [absent1 [Hstep0 [HR1 Hlast1]]].
    rewrite Hstep0. simpl. eapply IH; eassumption.
Qed.

Lemma merge_loop_empty_keys_backward p (files : list DataFileEntry) :
  forall i absent absent' empty,
    related absent empty ->
    merge_loop p None i files absent = Ok absent' ->
    rows_only_in_last (partition_results absent') ->
    exists empty',
      merge_loop p (Some []) i files empty = Ok empty'
      /\ related absent' empty'.
Proof.
  induction files as [ | e files IH]; intros i absent absent' empty HR; simpl.
  - intros [= <-] _. eauto.
  - intros H Hlast. apply bind_ok in H as [absent1 [Hstep Hloop]].
    destruct (step_empty_keys_backward p i e absent absent1 empty HR Hstep)
      as [empty1 [Hstep1 HR1]].
    + intros Hw.
      destruct (step_extends_results _ _ _ _ _ _ Hstep) as [more1 [H1 Hne]].
      destruct (merge_loop_extends_results _ _ _ _ _ _ Hloop) as [more2 H2].
      unfold rows_only_in_last in Hlast.
      rewrite H2, H1, <- app_assoc, removelast_app, total_rows_app in Hlast.
      * lia.
      * specialize (Hne Hw). destruct more1; [congruence | discriminate].
    + rewrite Hstep1. simpl. eapply IH; eassumption.
Qed.

Lemma related_initial : related initial_state initial_state.
Proof. repeat split. Qed.

Lemma construct_sql_with_keys (t : NdbTable) (keys : option (list string)) :
  _construct_sql (with_keys t keys) = _construct_sql t.
Proof. reflexivity. Qed.

(** The statement for the older WRITE of [two_writes] under the empty key
    list: the newer WRITE left one indicator row in Seen, and the join on
    Seen has no condition. *)
Example empty_keys_statement_text :
  match _construct_sql (two_writes (Some [])) with
  | Ok p =>
      match merge_loop p (Some []) 0 [write_entry ["id"] [[VInt 2]]]
              initial_state with
      | Ok s =>
          (deduplication_keys_seen s,
           option_map sql
             (match write_statement p (Some []) 1
                      {| columns := ["id"]; rows := [[VInt 1]] |} s with
              | Ok st => Some st
              | Raise _ => None
              end))
          = ({| columns := [_indicator_column_name]; rows := [[VInt 1]] |},
             Some ("SELECT t1.* FROM t1 LEFT JOIN pks ON "
                   ++ " WHERE pks.__ndb_reserved_indicator__ IS NULL AND TRUE"))
      | Raise _ => False
      end
  | Raise _ => False
  end.
Proof. reflexivity. Qed.

(** With the empty key list materialize returns exactly when, with no keys,
    the traversal succeeds and no WRITE other than the oldest contributes a
    row; the result is then the same. *)
Lemma empty_keys_return_iff (t : NdbTable) (r : DataFrame) :
  to_pd (with_keys t (Some [])) = Ok r
  <-> exists frs,
        fragment_results (with_keys t None) = Ok frs
        /\ total_rows (tl frs) = 0%nat
        /\ r = put_together frs.
Proof.
  unfold to_pd, fragment_results. rewrite !construct_sql_with_keys.
  simpl deduplication_keys. simpl _data_list. split.
  - intros H. apply bind_ok in H as [p [Hp H]].
    apply bind_ok in H as [empty' [Hloop H]]. injection H as <-.
    destruct (merge_loop_empty_keys_forward p _ _ _ _ _ related_initial
                eq_refl Hloop) as [absent' [Hloop0 [[Hres _] Hlast]]].
    exists (rev (partition_results absent')).
    rewrite Hp. simpl. rewrite Hloop0. simpl.
    rewrite total_rows_tl_rev. unfold rows_only_in_last in Hlast.
    rewrite Hres in *. auto.
  - intros [frs [H [Hlast ->]]].
    apply bind_ok in H as [p [Hp H]].
    apply bind_ok in H as [absent' [Hloop H]]. injection H as <-.
    rewrite total_rows_tl_rev in Hlast.
    destruct (merge_loop_empty_keys_backward p _ _ _ _ _ related_initial
                Hloop Hlast) as [empty' [Hloop1 [Hres _]]].
    rewrite Hp. simpl. rewrite Hloop1. simpl. now rewrite Hres.
Qed.

(** C3, as the code has it.  Whenever materialize with the empty list of
    deduplication keys returns, materialize with no keys returns the same
    relation; and when the traversal with no keys succeeds and no WRITE
    other than the oldest contributes a row, materialize with the empty
    list returns what materialize with no keys returns. *)
Theorem empty_keys_agree_when_they_return (t : NdbTable) :
  (forall r,
      to_pd (with_keys t (Some [])) = Ok r ->
      to_pd (with_keys t None) = Ok r)
  /\ (forall frs,
        fragment_results (with_keys t None) = Ok frs ->
        total_rows (tl frs) = 0%nat ->
        to_pd (with_keys t (Some [])) = Ok (put_together frs)
        /\ to_pd (with_keys t None) = Ok (put_together frs)).
Proof.
  split.
  - intros r H. apply empty_keys_return_iff in H as [frs [Hfrs [_ ->]]].
    now rewrite to_pd_fragment_results, Hfrs.
  - intros frs Hfrs Hlast. split.
    + apply empty_keys_return_iff. eauto.
    + now rewrite to_pd_fragment_results, Hfrs.
Qed.

Lemma empty_keys_agree_when_they_return_witness :
  to_pd (with_keys key_projected_away None)
  = Ok {| columns := ["v"]; rows := [[VInt 100]] |}
  /\ to_pd (with_keys S1_table (Some []))
     = Ok (put_together
             [{| columns := ["a"; "b"];
                 rows := [[VInt 10; VStr "x"]; [VInt 20; VStr "y"]] |}]).
Proof.
  split.
  - apply (proj1 (empty_keys_agree_when_they_return key_projected_away)
                 {| columns := ["v"]; rows := [[VInt 100]] |}).
    reflexivity.
  - apply (proj2 (empty_keys_agree_when_they_return S1_table)
                 [{| columns := ["a"; "b"];
                     rows := [[VInt 10; VStr "x"]; [VInt 20; VStr "y"]] |}]).
    + reflexivity.
    + reflexivity.
Defined.

(** C3, counterexample: two WRITEs of one row each.  With no keys
    materialize returns both rows; with the empty key list it fails. *)
Lemma empty_keys_fail_where_absent_keys_return :
  to_pd (two_writes None)
  = Ok {| columns := ["id"]; rows := [[VInt 1]; [VInt 2]] |}
  /\ to_pd (two_writes (Some [])) = Raise (DuckDBError ParserError)
  /\ two_writes (Some []) = with_keys (two_writes None) (Some []).
Proof. repeat split. Qed.

(** * Further properties of the reader *)

(** ** Where the engine model and the engine agree *)

Lemma same_case_spec (names labels : list string) (c l : string) :
  same_case names labels = true ->
  In c names -> In l labels -> lower c = lower l -> c = l.
Proof.
  unfold same_case. rewrite forallb_forall. intros Hall Hc Hl Hlower.
  specialize (Hall c Hc). rewrite forallb_forall in Hall.
  specialize (Hall l Hl). rewrite Hlower, String.eqb_refl in Hall.
  simpl in Hall. now apply String.eqb_eq.
Qed.

(** Under [same_case], resolving a name ignoring case is looking it up
    exactly, as [check_statement] does. *)
Lemma resolve_same_case (names labels : list string) (c : string) :
  same_case names labels = true ->
  In c names ->
  resolve labels c = if mem c labels then Some c else None.
Proof.
  intros Hsame Hc.
  assert (forall l, In l labels -> lower c = lower l -> c = l) as Hspec
    by (intros l Hl; now apply (same_case_spec names labels)).
  clear Hsame. unfold resolve, mem.
  induction labels as [ | l labels IH]; simpl; [reflexivity | ].
  destruct (lower l =? lower c) eqn:Hlower.
  - apply String.eqb_eq in Hlower.
    rewrite <- (Hspec l) by (simpl; auto).
    now rewrite String.eqb_refl.
  - destruct (c =? l) eqn:Heq.
    + apply String.eqb_eq in Heq. subst.
      now rewrite String.eqb_refl in Hlower.
    + simpl. apply IH. intros l' Hl'. apply Hspec. now right.
Qed.

(** Then the labels the engine answers under, those of the fragment, are
    the names of the select list, under which [execute] answers. *)
Lemma resolved_labels_same_case (names labels : list string) :
  same_case names labels = true ->
  unresolved labels names = None ->
  map (resolve labels) names = map Some names.
Proof.
  intros Hsame Hall. apply map_ext_in. intros c Hc.
  rewrite (resolve_same_case names labels c Hsame Hc).
  unfold unresolved in Hall.
  apply find_none with (x := c) in Hall; [ | assumption].
  now destruct (mem c labels).
Qed.

(** A cell that holds a value compares with a literal of its kind, so that
    under [typed] a leaf is unknown on a row only where its cell is
    [NULL]. *)
Lemma same_kind_compares (v : value) (l : literal) :
  same_kind v l = true -> v <> VNull -> compare_value v l <> None.
Proof.
  destruct v, l; simpl; intros Hkind Hnull; try discriminate; congruence.
Qed.

(** ** Versions and negation *)

Lemma where_clause_ok_versions (p : NdbBoolColumn) (version_number : Z)
  (clause : string) :
  _construct_where_clause p version_number = Ok clause ->
  Forall (fun v => v = version_number) (leaf_versions p).
Proof.
  intros Hok. apply Forall_forall. intros v Hin.
  destruct (Z.eq_dec v version_number) as [Heq | Hne]; [assumption | ].
  rewrite where_clause_checks_every_leaf in Hok by eauto. discriminate.
Qed.

Lemma versions_where_clause_ok (p : NdbBoolColumn) (version_number : Z) :
  Forall (fun v => v = version_number) (leaf_versions p) ->
  exists clause, _construct_where_clause p version_number = Ok clause.
Proof.
  induction p as [v c oa | a IHa b IHb op]; simpl; intros Hall.
  - inversion Hall as [ | ? ? Hv _]; subst. rewrite Z.eqb_refl. simpl. eauto.
  - apply Forall_app in Hall as [Ha Hb].
    destruct (IHa Ha) as [sa ->], (IHb Hb) as [sb ->]. simpl. eauto.
Qed.

(** X1. A predicate renders to a where clause against a table version
    exactly when every leaf of it, at any depth under AND and OR, was built
    on a handle of that version. *)
Theorem where_clause_ok_iff_versions (p : NdbBoolColumn) (version_number : Z) :
  (exists clause, _construct_where_clause p version_number = Ok clause)
  <-> Forall (fun v => v = version_number) (leaf_versions p).
Proof.
  split.
  - intros [clause Hok]. eapply where_clause_ok_versions; eauto.
  - apply versions_where_clause_ok.
Qed.

Lemma invert_leaf_versions (p : NdbBoolColumn) :
  leaf_versions (__invert__ p) = leaf_versions p.
Proof.
  induction p as [v c oa | a IHa b IHb op]; simpl; [reflexivity | ].
  destruct op; simpl; now rewrite IHa, IHb.
Qed.

(** X2. Negating a predicate changes nothing to whether it compiles: [~p]
    renders against a table version exactly when [p] does, and fails with
    the same exception when it does not. *)
Theorem invert_compiles_like_original (p : NdbBoolColumn) (version_number : Z) :
  is_ok (_construct_where_clause (__invert__ p) version_number)
  = is_ok (_construct_where_clause p version_number)
  /\ (forall e,
        _construct_where_clause (__invert__ p) version_number = Raise e
        <-> _construct_where_clause p version_number = Raise e).
Proof.
  assert (forall q,
             is_ok (_construct_where_clause q version_number) = true
             <-> Forall (fun v => v = version_number) (leaf_versions q)) as Hok.
  { intros q. split.
    - destruct (_construct_where_clause q version_number) as [clause | err]
        eqn:Hq; [ | discriminate].
      intros _. eapply where_clause_ok_versions; eauto.
    - intros Hall.
      now destruct (versions_where_clause_ok q version_number Hall)
        as [clause ->]. }
  assert (is_ok (_construct_where_clause (__invert__ p) version_number)
          = is_ok (_construct_where_clause p version_number)) as Hsame.
  { apply eq_true_iff_eq. rewrite !Hok, invert_leaf_versions. reflexivity. }
  split; [exact Hsame | ].
  intros e.
  destruct (where_clause_ok_or_cross_table p version_number) as [[c Hp] | Hp],
    (where_clause_ok_or_cross_table (__invert__ p) version_number)
      as [[c' Hi] | Hi];
    rewrite Hp, Hi in *; simpl in Hsame; try discriminate;
    split; intros H; congruence.
Qed.

Lemma holds_invert (op : scalar_op) (c : comparison) :
  holds (invert_scalar_op op) c = negb (holds op c).
Proof. destruct op, c; reflexivity. Qed.

Lemma not3_and3 (a b : option bool) :
  not3 (and3 a b) = or3 (not3 a) (not3 b).
Proof. destruct a as [[ | ] | ], b as [[ | ] | ]; reflexivity. Qed.

Lemma not3_or3 (a b : option bool) :
  not3 (or3 a b) = and3 (not3 a) (not3 b).
Proof. destruct a as [[ | ] | ], b as [[ | ] | ]; reflexivity. Qed.

Lemma not3_involutive (a : option bool) : not3 (not3 a) = a.
Proof. destruct a as [[ | ] | ]; reflexivity. Qed.

Lemma eval_op_arg_invert (v : value) (oa : op_arg) :
  eval_op_arg v (invert_op_arg oa) = not3 (eval_op_arg v oa).
Proof.
  destruct oa as [op arg | a b | a b | items | items]; simpl;
    try reflexivity; try (now rewrite not3_involutive).
  unfold eval_scalar. destruct (compare_value v arg); simpl; [ | reflexivity].
  now rewrite holds_invert.
Qed.

Lemma eval_where_invert (cols : list string) (row : list value)
  (p : NdbBoolColumn) :
  eval_where cols row (__invert__ p) = not3 (eval_where cols row p).
Proof.
  induction p as [v c oa | a IHa b IHb op]; simpl.
  - apply eval_op_arg_invert.
  - destruct op; simpl; rewrite IHa, IHb.
    + now rewrite not3_and3.
    + now rewrite not3_or3.
Qed.

(** X3. The structural negation is the negation of three-valued logic.  Let
    the engine read the rendering of [p] as [p] was built: the names and the
    literals of [p] are such that their text denotes them, its columns are
    labels of the row, written as the labels are, and each leaf compares its
    cell with literals of the cell's kind.  Then on the row [~p] evaluates
    to NOT of what [p] evaluates to.  So the row does not pass both [p] and
    [~p], and it passes neither exactly when [p] is unknown on it, as it is
    when a compared cell is [NULL]. *)
Theorem invert_is_three_valued_not (cols : list string) (row : list value)
  (p : NdbBoolColumn) :
  plain_predicate p = true ->
  unresolved cols (referenced p) = None ->
  same_case (referenced p) cols = true ->
  typed cols row p = true ->
  eval_where cols row (__invert__ p) = not3 (eval_where cols row p)
  /\ passes cols row (Some p) && passes cols row (Some (__invert__ p)) = false
  /\ (passes cols row (Some p) || passes cols row (Some (__invert__ p)) = false
      <-> eval_where cols row p = None).
Proof.
  intros _ _ _ _.
  split; [apply eval_where_invert | ].
  unfold passes. rewrite eval_where_invert.
  destruct (eval_where cols row p) as [[ | ] | ]; simpl;
    repeat split; intros; try reflexivity; discriminate.
Qed.

Lemma invert_is_three_valued_not_witness :
  eval_where ["a"; "b"] [VInt 1; VNull] (__invert__ positive_and_named)
  = not3 (eval_where ["a"; "b"] [VInt 1; VNull] positive_and_named)
  /\ passes ["a"; "b"] [VInt 1; VNull] (Some positive_and_named)
     && passes ["a"; "b"] [VInt 1; VNull]
               (Some (__invert__ positive_and_named)) = false
  /\ (passes ["a"; "b"] [VInt 1; VNull] (Some positive_and_named)
      || passes ["a"; "b"] [VInt 1; VNull]
                (Some (__invert__ positive_and_named)) = false
      <-> eval_where ["a"; "b"] [VInt 1; VNull] positive_and_named = None).
Proof.
  apply (invert_is_three_valued_not ["a"; "b"] [VInt 1; VNull]
           positive_and_named);
    reflexivity.
Defined.

(** ** The plan *)

Lemma column_args_app (ops1 ops2 : list Op) :
  column_args (ops1 ++ ops2) = (column_args ops1 ++ column_args ops2)%list.
Proof.
  induction ops1 as [ | [cols | q] ops1 IH]; simpl; congruence.
Qed.

Lemma row_args_app (ops1 ops2 : list Op) :
  row_args (ops1 ++ ops2) = (row_args ops1 ++ row_args ops2)%list.
Proof.
  induction ops1 as [ | [cols | q] ops1 IH]; simpl; congruence.
Qed.

(** The plan reads the ops through [column_args] and [row_args] only. *)
Lemma construct_sql_args (t t' : NdbTable) :
  _version_number t = _version_number t' ->
  column_args (_ops t) = column_args (_ops t') ->
  row_args (_ops t) = row_args (_ops t') ->
  _construct_sql t = _construct_sql t'.
Proof.
  intros Hv Hc Hr. unfold _construct_sql, compile_select, compile_where.
  now rewrite Hv, Hc, Hr.
Qed.

Lemma to_pd_args (t t' : NdbTable) :
  _version_number t = _version_number t' ->
  _table_schema t = _table_schema t' ->
  _data_list t = _data_list t' ->
  column_args (_ops t) = column_args (_ops t') ->
  row_args (_ops t) = row_args (_ops t') ->
  to_pd t = to_pd t'.
Proof.
  intros Hv Hs Hd Hc Hr. unfold to_pd.
  now rewrite (construct_sql_args t t' Hv Hc Hr), Hs, Hd.
Qed.

(** X4. Projecting and restricting commute: [t[cols][p]] and [t[p][cols]]
    compile to the same plan and materialize to the same result or the same
    exception.  In particular a restriction may name a column that an
    earlier projection dropped. *)
Theorem projection_and_restriction_commute (t : NdbTable)
  (cols : list string) (p : NdbBoolColumn) :
  _construct_sql (select_rows (select_columns t cols) p)
  = _construct_sql (select_columns (select_rows t p) cols)
  /\ to_pd (select_rows (select_columns t cols) p)
     = to_pd (select_columns (select_rows t p) cols).
Proof.
  assert (column_args (_ops (select_rows (select_columns t cols) p))
          = column_args (_ops (select_columns (select_rows t p) cols))) as Hc.
  { simpl. rewrite !column_args_app. simpl. now rewrite !app_nil_r. }
  assert (row_args (_ops (select_rows (select_columns t cols) p))
          = row_args (_ops (select_columns (select_rows t p) cols))) as Hr.
  { simpl. rewrite !row_args_app. simpl. now rewrite !app_nil_r. }
  split.
  - now apply construct_sql_args.
  - now apply to_pd_args.
Qed.

(** X5. Once a handle carries a restriction, restricting it again changes
    neither the plan nor what materialize returns: the where clause stays
    that of the first restriction. *)
Theorem second_restriction_has_no_effect (t : NdbTable) (q : NdbBoolColumn) :
  row_args (_ops t) <> [] ->
  _construct_sql (select_rows t q) = _construct_sql t
  /\ to_pd (select_rows t q) = to_pd t.
Proof.
  intros Hrows.
  assert (_construct_sql (select_rows t q) = _construct_sql t) as Hplan.
  { unfold _construct_sql, compile_select, compile_where. simpl.
    rewrite column_args_app, row_args_app. simpl. rewrite app_nil_r.
    destruct (row_args (_ops t)) as [ | first rest]; [contradiction | ].
    reflexivity. }
  split; [exact Hplan | ].
  unfold to_pd. now rewrite Hplan.
Qed.

Lemma second_restriction_has_no_effect_witness :
  to_pd (select_rows two_restrictions
           (__eq__ (column two_restrictions "a") (LInt 7)))
  = to_pd two_restrictions.
Proof.
  apply (second_restriction_has_no_effect two_restrictions).
  discriminate.
Defined.

Lemma narrow_columns_raises (current : list string)
  (rest : list (list string)) (e : exn) :
  narrow_columns current rest = Raise e ->
  exists offending,
    offending <> [] /\ e = ProjectionWidensSelection offending.
Proof.
  revert current.
  induction rest as [ | next rest IH]; intros current; simpl; [discriminate | ].
  destruct (columns_not_previously_selected current next) as [ | a offending]
    eqn:Hoff; simpl.
  - apply IH.
  - intros [= <-]. exists (a :: offending). split; [discriminate | reflexivity].
Qed.

(** X6. Plan compilation fails in two ways only, and the projections are
    looked at first: [_construct_sql] raises either ProjectionWidensSelection
    with a non-empty list of names, or CrossTableReference, and a widening
    projection is reported whatever the restrictions are. *)
Theorem construct_sql_failures (t : NdbTable) :
  (forall e, _construct_sql t = Raise e ->
     (exists offending,
         offending <> [] /\ e = ProjectionWidensSelection offending)
     \/ e = CrossTableReference)
  /\ (forall e q, compile_select (_ops t) = Raise e ->
        _construct_sql (select_rows t q) = Raise e).
Proof.
  split.
  - intros e. unfold _construct_sql, compile_select, compile_where.
    destruct (column_args (_ops t)) as [ | first rest].
    + simpl. destruct (row_args (_ops t)) as [ | p ps]; [discriminate | ].
      simpl.
      destruct (where_clause_ok_or_cross_table p (_version_number t))
        as [[c ->] | ->]; simpl; [discriminate | ].
      intros [= <-]. now right.
    + destruct (narrow_columns first rest) as [cols | err] eqn:Hn; simpl.
      * destruct (row_args (_ops t)) as [ | p ps]; [discriminate | ].
        simpl.
        destruct (where_clause_ok_or_cross_table p (_version_number t))
          as [[c ->] | ->]; simpl; [discriminate | ].
        intros [= <-]. now right.
      * intros [= <-]. left. eapply narrow_columns_raises; eauto.
  - intros e q Hsel. unfold _construct_sql, compile_select in *. simpl.
    rewrite column_args_app. simpl. rewrite app_nil_r.
    destruct (column_args (_ops t)) as [ | first rest]; [discriminate | ].
    destruct (narrow_columns first rest); [discriminate | ].
    now injection Hsel as <-.
Qed.

Lemma construct_sql_failures_witness :
  _construct_sql
    (select_rows
       {| _version_number := 1;
          _table_schema := {| deduplication_keys := None |};
          _data_list := [];
          _ops := widening |}
       (NdbComputedBoolColumnOpArg 2 "a" (Scalar OpEq (LInt 1))))
  = Raise (ProjectionWidensSelection ["c"; "d"]).
Proof.
  apply (proj2 (construct_sql_failures
                  {| _version_number := 1;
                     _table_schema := {| deduplication_keys := None |};
                     _data_list := [];
                     _ops := widening |})).
  reflexivity.
Defined.

(** ** Entries the traversal cannot pass *)

Lemma merge_loop_raises_at p keys (e : DataFileEntry)
  (files : list DataFileEntry) :
  (forall i s, exists err, step p keys i e s = Raise err) ->
  In e files ->
  forall i s, exists err, merge_loop p keys i files s = Raise err.
Proof.
  intros Hraises Hin.
  induction files as [ | f files IH]; [destruct Hin | ].
  intros i s. simpl.
  destruct (step p keys i f s) as [s' | err] eqn:Hstep; simpl; [ | eauto].
  destruct Hin as [-> | Hin].
  - destruct (Hraises i s) as [err Herr]. congruence.
  - now apply IH.
Qed.

Lemma step_unknown_kind p keys i (e : DataFileEntry) s :
  data_file_type e <> "write" ->
  data_file_type e <> "delete" ->
  step p keys i e s = Raise (UnknownFragmentKind (data_file_type e)).
Proof.
  intros Hw Hd. unfold step.
  apply String.eqb_neq in Hw, Hd. now rewrite Hw, Hd.
Qed.

(** X7. A manifest entry whose kind is neither "write" nor "delete" makes
    materialize raise, whatever the rest of the manifest holds; when the
    plan compiles and the entries newer than it go through, the exception is
    the [ValueError] naming that kind. *)
Theorem unknown_fragment_kind_raises (t : NdbTable)
  (older newer : list DataFileEntry) (e : DataFileEntry) :
  _data_list t = (older ++ e :: newer)%list ->
  data_file_type e <> "write" ->
  data_file_type e <> "delete" ->
  (exists err, to_pd t = Raise err)
  /\ (forall p s,
        _construct_sql t = Ok p ->
        merge_loop p (deduplication_keys (_table_schema t)) 0 (rev newer)
                   initial_state = Ok s ->
        to_pd t = Raise (UnknownFragmentKind (data_file_type e))).
Proof.
  intros Hlist Hw Hd. split.
  - unfold to_pd.
    destruct (_construct_sql t) as [p | err]; simpl; [ | eauto].
    destruct (merge_loop_raises_at p (deduplication_keys (_table_schema t)) e
                (rev (_data_list t)))
      with (i := 0%nat) (s := initial_state) as [err Herr].
    + intros i s. rewrite step_unknown_kind by assumption. eauto.
    + apply in_rev. rewrite rev_involutive, Hlist.
      apply in_or_app. right. now left.
    + rewrite Herr. simpl. eauto.
  - intros p s Hp Hnewer. unfold to_pd. rewrite Hp, Hlist. simpl bind.
    rewrite rev_app_distr. simpl rev. rewrite <- app_assoc.
    rewrite merge_loop_app, Hnewer. simpl.
    now rewrite step_unknown_kind by assumption.
Qed.

Lemma unknown_fragment_kind_raises_witness :
  to_pd (table 1 None
           [write_entry ["a"] [[VInt 1]];
            {| data_file_type := "compact"; data_file := empty_frame |};
            write_entry ["a"] [[VInt 2]]])
  = Raise (UnknownFragmentKind "compact").
Proof.
  refine (proj2 (unknown_fragment_kind_raises
                   (table 1 None
                      [write_entry ["a"] [[VInt 1]];
                       {| data_file_type := "compact";
                          data_file := empty_frame |};
                       write_entry ["a"] [[VInt 2]]])
                   [write_entry ["a"] [[VInt 1]]]
                   [write_entry ["a"] [[VInt 2]]]
                   {| data_file_type := "compact"; data_file := empty_frame |}
                   eq_refl _ _) _ _ eq_refl eq_refl);
    simpl; discriminate.
Defined.

(** ** The shape of the result *)

Lemma cell_or_null_skip (c c' : string) (cols : list string) (v : value)
  (row : list value) :
  c <> c' ->
  cell_or_null (c :: cols) (v :: row) c' = cell_or_null cols row c'.
Proof.
  intros Hne. unfold cell_or_null. simpl.
  apply String.eqb_neq in Hne. now rewrite Hne.
Qed.

Lemma cells_under_own_labels (cols : list string) (row : list value) :
  NoDup cols ->
  List.length row = List.length cols ->
  map (cell_or_null cols row) cols = row.
Proof.
  revert row.
  induction cols as [ | c cols IH]; intros [ | v row] Hnd Hlen;
    try discriminate; [reflexivity | ].
  inversion Hnd as [ | ? ? Hnotin Hnd']; subst.
  simpl. f_equal.
  - unfold cell_or_null. simpl. now rewrite String.eqb_refl.
  - rewrite <- (IH row Hnd') at 2 by (simpl in Hlen; lia).
    apply map_ext_in. intros c' Hin. apply cell_or_null_skip.
    intros ->. contradiction.
Qed.

Lemma reindex_shaped (cols : list string) (df : DataFrame) :
  NoDup cols -> shaped cols df -> reindex cols df = rows df.
Proof.
  intros Hnd [Hcols Hrows]. unfold reindex. rewrite Hcols.
  rewrite <- (map_id (rows df)) at 2.
  apply map_ext_in. intros row Hin.
  apply cells_under_own_labels; [assumption | ].
  rewrite Forall_forall in Hrows. now apply Hrows.
Qed.

Lemma union_columns_shaped (cols : list string) (frs : list DataFrame) :
  NoDup cols ->
  Forall (shaped cols) frs ->
  fold_left union_columns (map columns frs) cols = cols.
Proof.
  intros Hnd Hall.
  induction Hall as [ | df frs [Hcols _] _ IH]; simpl; [reflexivity | ].
  rewrite Hcols, union_columns_known; auto.
Qed.

Lemma put_together_shaped (cols : list string) (frs : list DataFrame) :
  NoDup cols ->
  Forall (shaped cols) frs ->
  frs <> [] ->
  put_together frs = {| columns := cols; rows := List.concat (map rows frs) |}.
Proof.
  intros Hnd Hall Hne.
  destruct frs as [ | df frs]; [contradiction | ].
  unfold put_together, pd_concat. cbn [List.length Nat.eqb].
  assert (fold_left union_columns (map columns (df :: frs)) [] = cols) as ->.
  { inversion Hall as [ | ? ? [Hcols _] Hrest]; subst. simpl.
    rewrite (union_columns_fresh (columns df) []) by assumption.
    simpl. now apply union_columns_shaped. }
  f_equal. rewrite flat_map_concat_map. f_equal.
  apply map_ext_in. intros fr Hin. apply reindex_shaped; [assumption | ].
  rewrite Forall_forall in Hall. now apply Hall.
Qed.

Lemma merge_loop_results_invariant (P : DataFrame -> Prop) p keys
  (files : list DataFileEntry) :
  (forall i e s st df,
      In e files ->
      write_statement p keys i (data_file e) s = Ok st ->
      execute st = Ok df -> P df) ->
  forall i s s',
    Forall P (partition_results s) ->
    merge_loop p keys i files s = Ok s' ->
    Forall P (partition_results s').
Proof.
  induction files as [ | e files IH]; intros HP i s s' Hs; simpl.
  - now intros [= <-].
  - intros H. apply bind_ok in H as [s1 [Hstep Hloop]].
    apply IH with (i := S i) (s := s1); auto.
    + intros; eapply HP; eauto. now right.
    + apply step_cases in Hstep as [[_ Hstep] | [_ [_ Hstep]]].
      * apply step_write_results in Hstep as [st [df [Hst [Hdf [-> _]]]]].
        apply Forall_app. split; [assumption | ].
        constructor; [ | constructor]. eapply HP; eauto. now left.
      * apply step_delete_results in Hstep as [-> _]. assumption.
Qed.

Lemma execute_shaped_projection (st : statement) (df : DataFrame)
  (cols : list string) :
  projection st = Some cols -> execute st = Ok df -> shaped cols df.
Proof.
  intros Hproj H. unfold execute in H.
  apply bind_ok in H as [_ [_ H]]. injection H as <-.
  rewrite Hproj. split; [reflexivity | ]. simpl.
  apply Forall_forall. intros row Hin.
  apply in_map_iff in Hin as [row' [<- _]]. apply length_map.
Qed.

Lemma fragment_results_shaped (t : NdbTable) (cols : list string)
  (frs : list DataFrame) :
  last_projection (_ops t) = Some cols ->
  fragment_results t = Ok frs ->
  Forall (shaped cols) frs.
Proof.
  intros Hlast Hfrs. unfold fragment_results in Hfrs.
  apply bind_ok in Hfrs as [p [Hp Hfrs]].
  apply bind_ok in Hfrs as [s [Hloop Hfrs]]. injection Hfrs as <-.
  apply Forall_rev.
  eapply merge_loop_results_invariant with (s := initial_state);
    [ | constructor | exact Hloop].
  intros i e s0 st df _ Hst Hdf.
  apply write_statement_parts in Hst as [_ [Hproj _]].
  apply execute_shaped_projection with (st := st); [ | assumption].
  now rewrite Hproj, (construct_sql_columns _ _ Hp).
Qed.

(** X8. Under a projection onto distinct columns, each written as the
    label of the WRITE fragments it means, whatever materialize returns from
    a manifest with a WRITE has exactly the projected labels, in the order
    of the projection, and its rows are the rows of the fragment results one
    after the other, each with one cell per label.  The names are such that
    their quoted text denotes them and no two are the same up to case. *)
Theorem projected_result_shape (t : NdbTable) (cols : list string)
  (frs : list DataFrame) :
  last_projection (_ops t) = Some cols ->
  NoDup cols ->
  projection_in_domain (Some cols) = true ->
  Forall (fun e => is_write e = true ->
                   same_case cols (columns (data_file e)) = true)
         (_data_list t) ->
  fragment_results t = Ok frs ->
  frs <> [] ->
  to_pd t = Ok {| columns := cols; rows := List.concat (map rows frs) |}
  /\ Forall (fun row => List.length row = List.length cols)
            (List.concat (map rows frs)).
Proof.
  intros Hlast Hnd _ _ Hfrs Hne.
  pose proof (fragment_results_shaped t cols frs Hlast Hfrs) as Hall.
  split.
  - rewrite to_pd_fragment_results, Hfrs. simpl.
    now rewrite (put_together_shaped cols).
  - apply Forall_concat. apply Forall_map.
    apply Forall_impl with (2 := Hall). now intros df [_ Hrows].
Qed.

Lemma projected_result_shape_witness :
  to_pd S1_table
  = Ok {| columns := ["a"; "b"];
          rows := List.concat
                    (map rows
                       [{| columns := ["a"; "b"];
                           rows := [[VInt 10; VStr "x"];
                                    [VInt 20; VStr "y"]] |}]) |}.
Proof.
  apply (projected_result_shape S1_table ["a"; "b"]
           [{| columns := ["a"; "b"];
               rows := [[VInt 10; VStr "x"]; [VInt 20; VStr "y"]] |}]).
  - reflexivity.
  - repeat constructor; simpl; intuition discriminate.
  - reflexivity.
  - repeat constructor.
  - reflexivity.
  - discriminate.
Defined.

(** ** Accumulated relations as lists of tuples *)

Lemma existsb_map {A B} (f : B -> bool) (g : A -> B) (l : list A) :
  existsb f (map g l) = existsb (fun x => f (g x)) l.
Proof. induction l as [ | x l IH]; simpl; congruence. Qed.

Lemma existsb_same {A} (f g : A -> bool) (l : list A) :
  (forall x, In x l -> f x = g x) -> existsb f l = existsb g l.
Proof.
  induction l as [ | x l IH]; simpl; intros H; [reflexivity | ].
  rewrite H by (now left). f_equal. apply IH. intros y Hy. apply H. now right.
Qed.

Lemma tuples_equal_maps (f g : string -> value) (labels : list string) :
  tuples_equal (map f labels) (map g labels)
  = forallb (fun c => sql_equal (f c) (g c)) labels.
Proof.
  unfold tuples_equal.
  induction labels as [ | c labels IH]; simpl; congruence.
Qed.

(** The anti-join looks at the partner relation through its tuples under
    the join labels. *)
Lemma matched_key_tuples (cols : list string) (row : list value)
  (j : anti_join) :
  matched cols row j
  = existsb (tuples_equal (key_cells (on j) cols row))
            (key_tuples (on j) (other j)).
Proof.
  unfold matched, key_tuples. rewrite existsb_map.
  apply existsb_same. intros partner _.
  unfold key_cells. now rewrite tuples_equal_maps.
Qed.

Lemma cell_of_mapped_row (f : string -> value) (cols : list string)
  (c : string) :
  In c cols -> cell_or_null cols (map f cols) c = f c.
Proof.
  unfold cell_or_null.
  induction cols as [ | a cols IH]; simpl; [intros [] | ].
  destruct (String.eqb_spec a c) as [-> | Hne]; [reflexivity | ].
  intros [Heq | Hin]; [contradiction | auto].
Qed.

Lemma cell_of_extended_row (f : string -> value) (cols more : list string)
  (cells : list value) (c : string) :
  In c cols ->
  cell_or_null (cols ++ more) (map f cols ++ cells) c = f c.
Proof.
  unfold cell_or_null.
  induction cols as [ | a cols IH]; simpl; [intros [] | ].
  destruct (String.eqb_spec a c) as [-> | Hne]; [reflexivity | ].
  intros [Heq | Hin]; [contradiction | auto].
Qed.

Lemma cell_of_row_with_indicator (cols : list string) (row : list value)
  (extra : string) (v : value) (c : string) :
  List.length row = List.length cols ->
  c <> extra ->
  cell_or_null (cols ++ [extra]) (row ++ [v]) c = cell_or_null cols row c.
Proof.
  unfold cell_or_null. revert row.
  induction cols as [ | a cols IH]; intros [ | x row] Hlen Hne;
    try discriminate; simpl.
  - apply String.eqb_neq in Hne. rewrite String.eqb_sym in Hne.
    now rewrite Hne.
  - destruct (a =? c); [reflexivity | ].
    apply IH; [simpl in Hlen; lia | assumption].
Qed.

Lemma union_columns_in (c : string) (cols acc : list string) :
  In c (union_columns acc cols) <-> In c acc \/ In c cols.
Proof.
  revert acc.
  induction cols as [ | a cols IH]; intros acc; simpl; [tauto | ].
  rewrite IH. destruct (mem a acc) eqn:Hmem.
  - apply mem_In in Hmem. split; [tauto | ].
    intros [H | [<- | H]]; auto.
  - rewrite in_app_iff. simpl. tauto.
Qed.

Lemma key_tuples_reindexed (labels cols : list string) (df : DataFrame) :
  (forall c, In c labels -> In c cols) ->
  map (key_cells labels cols) (reindex cols df) = key_tuples labels df.
Proof.
  intros Hin. unfold reindex, key_tuples. rewrite map_map.
  apply map_ext. intros row. unfold key_cells.
  apply map_ext_in. intros c Hc.
  now rewrite cell_of_mapped_row by auto.
Qed.

(** Appending a frame to an accumulator appends its tuples. *)
Lemma key_tuples_pd_concat_pair (labels : list string) (a b : DataFrame) :
  (forall c, In c labels -> In c (columns b)) ->
  key_tuples labels (pd_concat [a; b])
  = (key_tuples labels a ++ key_tuples labels b)%list.
Proof.
  intros Hin.
  assert (forall c, In c labels -> In c (columns (pd_concat [a; b]))) as Hall.
  { intros c Hc. rewrite pd_concat_pair_columns.
    apply union_columns_in. right. auto. }
  unfold key_tuples at 1. unfold pd_concat at 2. cbn [rows flat_map].
  rewrite app_nil_r, map_app.
  now rewrite !key_tuples_reindexed by exact Hall.
Qed.

Lemma key_tuples_length (labels : list string) (df : DataFrame) :
  List.length (key_tuples labels df) = len df.
Proof. unfold key_tuples, len. apply length_map. Qed.

Lemma key_tuples_no_rows (labels : list string) (df : DataFrame) :
  len df = 0%nat -> key_tuples labels df = [].
Proof.
  intros H. apply length_zero_iff_nil. now rewrite key_tuples_length.
Qed.

(** The indicator column does not disturb the tuples under other labels. *)
Lemma key_tuples_assign_indicator (labels : list string) (df : DataFrame) :
  well_formed df ->
  ~ In _indicator_column_name (columns df) ->
  ~ In _indicator_column_name labels ->
  key_tuples labels (assign df _indicator_column_name (VInt 1))
  = key_tuples labels df.
Proof.
  intros Hwf Hcols Hlabels. unfold assign.
  destruct (mem _indicator_column_name (columns df)) eqn:Hmem.
  { apply mem_In in Hmem. contradiction. }
  unfold key_tuples. simpl. rewrite map_map.
  apply map_ext_in. intros row Hrow. unfold key_cells.
  apply map_ext_in. intros c Hc.
  apply cell_of_row_with_indicator.
  - unfold well_formed in Hwf. rewrite Forall_forall in Hwf. auto.
  - intros ->. contradiction.
Qed.

(** ** What DELETE entries remove *)

Lemma write_statement_nothing_seen_parts p keys i fragment s st :
  len (deduplication_keys_seen s) = 0%nat ->
  write_statement p keys i fragment s = Ok st ->
  from st = fragment
  /\ projection st = plan_columns p
  /\ restriction st = plan_filter p
  /\ joins st
     = if (len (deletes s) =? 0)%nat then []
       else [{| other := deletes s; on := delete_columns (deletes s) |}].
Proof.
  intros Hseen. unfold write_statement. rewrite Hseen. simpl.
  destruct (len (deletes s) =? 0)%nat; intros [= <-]; simpl; auto.
Qed.

Lemma delete_columns_indicator_last (dcols : list string) :
  ~ In _indicator_column_name dcols ->
  filter (fun c => negb (c =? _indicator_column_name))
         (dcols ++ [_indicator_column_name])
  = dcols.
Proof.
  intros Hnotin. rewrite filter_app. simpl.
  rewrite app_nil_r.
  induction dcols as [ | c dcols IH]; [reflexivity | ].
  simpl. destruct (String.eqb_spec c _indicator_column_name) as [-> | Hne].
  - elim Hnotin. now left.
  - simpl. f_equal. apply IH. intros Hin. apply Hnotin. now right.
Qed.

(** The result of a WRITE when no key has been seen and Deletes is on
    [dcols]. *)
Lemma write_result_against_deletes p i (dcols : list string)
  (fragment : DataFrame) s st df :
  len (deduplication_keys_seen s) = 0%nat ->
  (deletes s = empty_frame
   \/ columns (deletes s) = (dcols ++ [_indicator_column_name])%list) ->
  ~ In _indicator_column_name dcols ->
  write_statement p None i fragment s = Ok st ->
  execute st = Ok df ->
  df = {| columns := match plan_columns p with
                     | Some wanted => wanted
                     | None => columns fragment
                     end;
          rows := map (project_row (plan_columns p) (columns fragment))
                      (filter
                         (fun row =>
                            negb (existsb
                                    (tuples_equal
                                       (key_cells dcols (columns fragment) row))
                                    (key_tuples dcols (deletes s)))
                            && passes (columns fragment) row (plan_filter p))
                         (rows fragment)) |}.
Proof.
  intros Hseen Hdel Hind Hst Hdf.
  apply write_statement_nothing_seen_parts in Hst
    as [Hfrom [Hproj [Hres Hjoins]]]; [ | assumption].
  unfold execute in Hdf. apply bind_ok in Hdf as [_ [_ Hdf]].
  injection Hdf as <-. rewrite Hproj, Hfrom. f_equal. f_equal.
  apply filter_ext. intros row. unfold kept. rewrite Hjoins, Hres, Hfrom.
  destruct (len (deletes s) =? 0)%nat eqn:Hlen.
  - apply Nat.eqb_eq in Hlen.
    now rewrite (key_tuples_no_rows dcols _ Hlen).
  - destruct Hdel as [Hdel | Hdel].
    { rewrite Hdel in Hlen. discriminate. }
    simpl. rewrite andb_true_r, matched_key_tuples. simpl.
    unfold delete_columns. rewrite Hdel.
    now rewrite delete_columns_indicator_last.
Qed.

Lemma is_write_not_delete (e : DataFileEntry) :
  is_write e = true -> is_delete e = false.
Proof.
  unfold is_write, is_delete. intros H. apply String.eqb_eq in H.
  now rewrite H.
Qed.

Lemma assign_indicator_columns (df : DataFrame) :
  ~ In _indicator_column_name (columns df) ->
  columns (assign df _indicator_column_name (VInt 1))
  = (columns df ++ [_indicator_column_name])%list.
Proof.
  intros Hnotin. unfold assign.
  destruct (mem _indicator_column_name (columns df)) eqn:Hmem;
    [ | reflexivity].
  apply mem_In in Hmem. contradiction.
Qed.

Lemma NoDup_with_indicator (dcols : list string) :
  NoDup dcols ->
  ~ In _indicator_column_name dcols ->
  NoDup (dcols ++ [_indicator_column_name]).
Proof.
  intros Hnd Hnotin. apply NoDup_app; auto.
  - repeat constructor. intros [].
  - intros c Hc [<- | []]. contradiction.
Qed.

Lemma step_keeps_deletes_accumulated p (dcols : list string)
  (e : DataFileEntry) (newer : list DataFileEntry) s s' :
  NoDup dcols ->
  ~ In _indicator_column_name dcols ->
  (is_delete e = true ->
   columns (data_file e) = dcols /\ well_formed (data_file e)) ->
  deletes_accumulated p dcols newer s ->
  step p None (List.length newer) e s = Ok s' ->
  deletes_accumulated p dcols (e :: newer) s'.
Proof.
  intros Hnd Hind He [Hseen [Hres [Hdel Htuples]]] Hstep.
  apply step_cases in Hstep as [[Hw Hstep] | [Hw [Hd Hstep]]].
  - unfold step_write in Hstep.
    apply bind_ok in Hstep as [st [Hst Hstep]].
    apply bind_ok in Hstep as [df [Hdf Hstep]].
    injection Hstep as <-.
    pose proof (write_result_against_deletes p _ dcols _ s st df
                  Hseen Hdel Hind Hst Hdf) as Hshape.
    unfold deletes_accumulated. cbn [deduplication_keys_seen
      partition_results deletes].
    repeat split; auto.
    + rewrite rev_app_distr. simpl. rewrite Hw, Hres. f_equal.
      rewrite Hshape. f_equal. f_equal.
      apply filter_ext. intros row. unfold deleted. now rewrite Htuples.
    + intros k. rewrite Htuples. unfold names_tuple. simpl.
      now rewrite (is_write_not_delete _ Hw).
  - assert (is_delete e = true) as Hdelete
      by (unfold is_delete; now rewrite Hd).
    destruct (He Hdelete) as [Hcols Hwf].
    unfold step_delete in Hstep.
    destruct (_ && _); [discriminate | ]. injection Hstep as <-.
    unfold deletes_accumulated. cbn [deduplication_keys_seen
      partition_results deletes].
    assert (~ In _indicator_column_name (columns (data_file e))) as Hfree
      by now rewrite Hcols.
    repeat split; auto.
    + simpl. now rewrite Hw.
    + right. rewrite pd_concat_pair_columns, assign_indicator_columns, Hcols
        by assumption.
      pose proof (NoDup_with_indicator dcols Hnd Hind) as Hnd'.
      destruct Hdel as [-> | ->].
      * simpl. now rewrite (union_columns_fresh _ []).
      * rewrite (union_columns_fresh _ []) by assumption. simpl.
        now apply union_columns_known.
    + intros k. rewrite key_tuples_pd_concat_pair.
      * rewrite existsb_app, Htuples, key_tuples_assign_indicator
          by assumption.
        unfold names_tuple at 2. simpl. rewrite Hdelete. simpl.
        apply orb_comm.
      * intros c Hc. rewrite assign_indicator_columns, Hcols by assumption.
        apply in_or_app. now left.
Qed.

Lemma merge_loop_deletes_accumulated p (dcols : list string)
  (manifest : list DataFileEntry) :
  NoDup dcols ->
  ~ In _indicator_column_name dcols ->
  deletes_on dcols manifest ->
  forall s,
    merge_loop p None 0 (rev manifest) initial_state = Ok s ->
    deletes_accumulated p dcols manifest s.
Proof.
  intros Hnd Hind Hon.
  induction Hon as [ | e newer He Hnewer IH]; intros s.
  - simpl. intros [= <-]. repeat split; auto.
  - rewrite merge_loop_oldest. intros H.
    apply bind_ok in H as [s1 [Hloop Hstep]].
    eapply step_keeps_deletes_accumulated; eauto.
Qed.

(** X9. Without deduplication keys, when every DELETE entry is a frame on
    the same distinct columns [dcols], what materialize returns is, WRITE by
    WRITE in manifest order, the rows that pass the restriction and that
    agree with no row of a newer DELETE entry on all of [dcols], under the
    projection; rows of older DELETE entries remove nothing, and a [NULL]
    cell agrees with nothing.  The plan, the DELETE columns and the
    manifest are [in_domain]: names are written as the labels they mean,
    cells are compared with literals and cells of their kind, and the text
    of the statement denotes the names and the literals it was built
    from. *)
Theorem deletes_remove_older_rows (t : NdbTable) (p : plan)
  (dcols : list string) (r : DataFrame) :
  deduplication_keys (_table_schema t) = None ->
  _construct_sql t = Ok p ->
  NoDup dcols ->
  ~ In _indicator_column_name dcols ->
  deletes_on dcols (_data_list t) ->
  in_domain p [] dcols (_data_list t) = true ->
  to_pd t = Ok r ->
  r = put_together (undeleted p dcols (_data_list t)).
Proof.
  intros Hkeys Hp Hnd Hind Hon _ H. unfold to_pd in H.
  rewrite Hp, Hkeys in H. simpl in H.
  apply bind_ok in H as [s [Hloop H]]. injection H as <-.
  destruct (merge_loop_deletes_accumulated p dcols _ Hnd Hind Hon s Hloop)
    as [_ [Hres _]].
  now rewrite Hres.
Qed.

Lemma deletes_remove_older_rows_witness :
  exists p,
    _construct_sql restricted_around_delete = Ok p
    /\ {| columns := ["a"; "id"];
          rows := [[VInt 60; VInt 6]; [VInt 30; VInt 3]; [VInt 50; VInt 5]] |}
       = put_together
           (undeleted p ["id"] (_data_list restricted_around_delete)).
Proof.
  eexists. split; [reflexivity | ].
  apply (deletes_remove_older_rows restricted_around_delete _ ["id"]).
  - reflexivity.
  - reflexivity.
  - constructor; [ | constructor]. simpl. tauto.
  - simpl. intros [H | []]. discriminate H.
  - repeat constructor; try discriminate.
  - reflexivity.
  - reflexivity.
Defined.

(** ** What newer WRITE entries rewrite *)

Lemma sql_equal_trans (x y z : value) :
  sql_equal x y = true -> sql_equal y z = true -> sql_equal x z = true.
Proof.
  destruct x, y, z; simpl; try discriminate.
  - intros H1 H2. apply Z.eqb_eq in H1, H2. apply Z.eqb_eq. congruence.
  - intros H1 H2. apply String.eqb_eq in H1, H2. apply String.eqb_eq.
    congruence.
Qed.

Lemma tuples_equal_trans (k a b : list value) :
  List.length a = List.length b ->
  tuples_equal k a = true ->
  tuples_equal a b = true ->
  tuples_equal k b = true.
Proof.
  unfold tuples_equal. revert a b.
  induction k as [ | x k IH]; intros [ | y a] [ | z b] Hlen; simpl;
    try discriminate; try reflexivity.
  intros H1 H2.
  apply andb_true_iff in H1 as [Hxy H1], H2 as [Hyz H2].
  apply andb_true_iff. split.
  - eapply sql_equal_trans; eauto.
  - apply (IH a b); auto.
Qed.

Lemma key_tuples_lengths (labels : list string) (df : DataFrame)
  (k : list value) :
  In k (key_tuples labels df) -> List.length k = List.length labels.
Proof.
  unfold key_tuples, key_cells. intros H.
  apply in_map_iff in H as [row [<- _]]. apply length_map.
Qed.

(** Keeping only the rows that no accumulated tuple names loses no key:
    a dropped row carries a key that an accumulated tuple already names. *)
Lemma names_after_filter (labels cols : list string) (k : list value)
  (seen : list (list value)) (rs : list (list value)) :
  (forall sk, In sk seen -> List.length sk = List.length labels) ->
  existsb (tuples_equal k) seen
  || existsb (tuples_equal k)
       (map (key_cells labels cols)
            (filter (fun row =>
                       negb (existsb (tuples_equal (key_cells labels cols row))
                                     seen))
                    rs))
  = existsb (tuples_equal k) (map (key_cells labels cols) rs)
    || existsb (tuples_equal k) seen.
Proof.
  intros Hlen. apply eq_true_iff_eq.
  rewrite !orb_true_iff, !existsb_exists. split.
  - intros [H | [kr [Hin Hk]]]; [now right | left].
    apply in_map_iff in Hin as [row [<- Hin]].
    apply filter_In in Hin as [Hin _].
    exists (key_cells labels cols row). split; [ | assumption].
    now apply in_map.
  - intros [[kr [Hin Hk]] | H]; [ | now left].
    apply in_map_iff in Hin as [row [<- Hin]].
    destruct (existsb (tuples_equal (key_cells labels cols row)) seen)
      eqn:Hseen.
    + left. apply existsb_exists in Hseen as [sk [Hsk Hmatch]].
      exists sk. split; [assumption | ].
      apply tuples_equal_trans with (a := key_cells labels cols row); auto.
      unfold key_cells. rewrite length_map. symmetry. auto.
    + right. exists (key_cells labels cols row). split; [ | assumption].
      apply in_map, filter_In. split; [assumption | ]. now rewrite Hseen.
Qed.

(** The result of a WRITE under a plan without ops, when Deletes is empty. *)
Lemma write_result_against_seen p (ks : list string) i
  (fragment : DataFrame) s st df :
  plan_columns p = None ->
  plan_filter p = None ->
  deletes s = empty_frame ->
  write_statement p (Some ks) i fragment s = Ok st ->
  execute st = Ok df ->
  df = {| columns := columns fragment;
          rows := filter
                    (fun row =>
                       negb (existsb
                               (tuples_equal
                                  (key_cells ks (columns fragment) row))
                               (key_tuples ks (deduplication_keys_seen s))))
                    (rows fragment) |}.
Proof.
  intros Hcols Hfilter Hdel Hst Hdf.
  assert (from st = fragment /\ projection st = None /\ restriction st = None
          /\ joins st
             = if (len (deduplication_keys_seen s) =? 0)%nat then []
               else [{| other := deduplication_keys_seen s; on := ks |}])
    as [Hfrom [Hproj [Hres Hjoins]]].
  { unfold write_statement in Hst. rewrite Hdel in Hst. simpl in Hst.
    destruct (len (deduplication_keys_seen s) =? 0)%nat;
      injection Hst as <-; simpl; auto. }
  unfold execute in Hdf. apply bind_ok in Hdf as [_ [_ Hdf]].
  injection Hdf as <-. rewrite Hproj, Hfrom. f_equal.
  unfold project_row. rewrite map_id.
  apply filter_ext. intros row. unfold kept.
  rewrite Hjoins, Hres, Hfrom. simpl passes. rewrite andb_true_r.
  destruct (len (deduplication_keys_seen s) =? 0)%nat eqn:Hlen.
  - apply Nat.eqb_eq in Hlen.
    now rewrite (key_tuples_no_rows ks _ Hlen).
  - simpl. now rewrite andb_true_r, matched_key_tuples.
Qed.

Lemma key_tuples_of_key_frame (ks : list string) (df : DataFrame) :
  ~ In _indicator_column_name ks ->
  key_tuples ks (assign {| columns := ks; rows := reindex ks df |}
                        _indicator_column_name (VInt 1))
  = key_tuples ks df.
Proof.
  intros Hind. unfold assign. cbn [columns rows].
  destruct (mem _indicator_column_name ks) eqn:Hmem.
  { apply mem_In in Hmem. contradiction. }
  unfold key_tuples, reindex. cbn [columns rows]. rewrite !map_map.
  apply map_ext. intros row. unfold key_cells.
  apply map_ext_in. intros c Hc.
  now rewrite cell_of_extended_row.
Qed.

Lemma step_keeps_keys_accumulated p (ks : list string) (e : DataFileEntry)
  (newer : list DataFileEntry) s s' :
  plan_columns p = None ->
  plan_filter p = None ->
  ~ In _indicator_column_name ks ->
  is_write e = true ->
  keys_accumulated ks newer s ->
  step p (Some ks) (List.length newer) e s = Ok s' ->
  keys_accumulated ks (e :: newer) s'.
Proof.
  intros Hcols Hfilter Hind Hw [Hdel [Hres Hnames]] Hstep.
  unfold step in Hstep. unfold is_write in Hw. rewrite Hw in Hstep.
  unfold step_write in Hstep.
  apply bind_ok in Hstep as [st [Hst Hstep]].
  apply bind_ok in Hstep as [df [Hdf Hstep]].
  apply bind_ok in Hstep as [kf [Hkf Hstep]].
  injection Hstep as <-.
  pose proof (write_result_against_seen p ks _ _ s st df
                Hcols Hfilter Hdel Hst Hdf) as Hshape.
  assert (kf = {| columns := ks; rows := reindex ks df |}) as ->.
  { unfold getitem in Hkf. destruct (filter _ ks); [ | discriminate].
    now injection Hkf as <-. }
  unfold keys_accumulated.
  cbn [deduplication_keys_seen partition_results deletes].
  split; [assumption | split].
  - rewrite rev_app_distr. simpl. rewrite Hres. f_equal.
    rewrite Hshape. f_equal.
    apply filter_ext. intros row. unfold shadowed. now rewrite Hnames.
  - intros k. rewrite key_tuples_pd_concat_pair.
    + rewrite key_tuples_of_key_frame by assumption.
      rewrite existsb_app. unfold names_tuple at 1. cbn [existsb].
      unfold is_write at 1. rewrite Hw. cbn [andb].
      fold (names_tuple is_write ks k newer). rewrite <- Hnames.
      rewrite Hshape. unfold key_tuples at 2 3. cbn [columns rows].
      apply names_after_filter.
      intros sk Hsk. eapply key_tuples_lengths; eauto.
    + intros c Hc. unfold assign. cbn [columns].
      destruct (mem _indicator_column_name ks); cbn [columns];
        [assumption | apply in_or_app; now left].
Qed.

Lemma merge_loop_keys_accumulated p (ks : list string)
  (manifest : list DataFileEntry) :
  plan_columns p = None ->
  plan_filter p = None ->
  ~ In _indicator_column_name ks ->
  Forall (fun e => is_write e = true) manifest ->
  forall s,
    merge_loop p (Some ks) 0 (rev manifest) initial_state = Ok s ->
    keys_accumulated ks manifest s.
Proof.
  intros Hcols Hfilter Hind Hall.
  induction Hall as [ | e newer He Hnewer IH]; intros s.
  - simpl. intros [= <-]. repeat split; auto.
  - rewrite merge_loop_oldest. intros H.
    apply bind_ok in H as [s1 [Hloop Hstep]].
    eapply step_keeps_keys_accumulated; eauto.
Qed.

(** X10. With deduplication keys, over a manifest of WRITE entries and a
    handle without ops, what materialize returns is, entry by entry in
    manifest order, the rows whose key tuple no row of a newer entry
    carries: of the rows of different entries that share a key, only those
    of the newest such entry are returned, while rows sharing a key inside
    one entry all stay. *)
Theorem newest_entry_wins_per_key (t : NdbTable) (ks : list string)
  (r : DataFrame) :
  deduplication_keys (_table_schema t) = Some ks ->
  ~ In _indicator_column_name ks ->
  _ops t = [] ->
  Forall (fun e => is_write e = true) (_data_list t) ->
  to_pd t = Ok r ->
  r = put_together (latest_versions ks (_data_list t)).
Proof.
  intros Hkeys Hind Hops Hall H. unfold to_pd, _construct_sql in H.
  rewrite Hops, Hkeys in H. simpl in H.
  apply bind_ok in H as [s [Hloop H]]. injection H as <-.
  apply merge_loop_keys_accumulated in Hloop as [_ [Hres _]]; auto.
  now rewrite Hres.
Qed.

Lemma newest_entry_wins_per_key_witness :
  {| columns := ["id"; "v"];
     rows := [[VInt 2; VInt 200]; [VInt 1; VInt 101]; [VInt 3; VInt 300]] |}
  = put_together (latest_versions ["id"] (_data_list S2_table)).
Proof.
  apply (newest_entry_wins_per_key S2_table ["id"]).
  - reflexivity.
  - simpl. intros [H | []]. discriminate H.
  - reflexivity.
  - repeat constructor.
  - reflexivity.
Defined.

(** *** Under a restriction and a projection *)

Lemma filter_filter {A} (f g : A -> bool) (l : list A) :
  filter f (filter g l) = filter (fun x => f x && g x) l.
Proof.
  induction l as [ | x l IH]; simpl; [reflexivity | ].
  destruct (g x); simpl.
  - rewrite andb_true_r. destruct (f x); now rewrite IH.
  - now rewrite andb_false_r.
Qed.

Lemma write_result_against_seen_general p (ks : list string) i
  (fragment : DataFrame) s st df :
  deletes s = empty_frame ->
  write_statement p (Some ks) i fragment s = Ok st ->
  execute st = Ok df ->
  df = projected p
         {| columns := columns fragment;
            rows := filter
                      (fun row =>
                         negb (existsb
                                 (tuples_equal
                                    (key_cells ks (columns fragment) row))
                                 (key_tuples ks (deduplication_keys_seen s)))
                         && passes (columns fragment) row (plan_filter p))
                      (rows fragment) |}.
Proof.
  intros Hdel Hst Hdf.
  assert (from st = fragment /\ projection st = plan_columns p
          /\ restriction st = plan_filter p
          /\ joins st
             = if (len (deduplication_keys_seen s) =? 0)%nat then []
               else [{| other := deduplication_keys_seen s; on := ks |}])
    as [Hfrom [Hproj [Hres Hjoins]]].
  { unfold write_statement in Hst. rewrite Hdel in Hst. simpl in Hst.
    destruct (len (deduplication_keys_seen s) =? 0)%nat;
      injection Hst as <-; simpl; auto. }
  unfold execute in Hdf. apply bind_ok in Hdf as [_ [_ Hdf]].
  injection Hdf as <-. unfold projected. cbn [columns rows].
  rewrite Hproj, Hfrom. f_equal. f_equal.
  apply filter_ext. intros row. unfold kept.
  rewrite Hjoins, Hres, Hfrom.
  destruct (len (deduplication_keys_seen s) =? 0)%nat eqn:Hlen.
  - apply Nat.eqb_eq in Hlen.
    now rewrite (key_tuples_no_rows ks _ Hlen).
  - simpl. now rewrite andb_true_r, matched_key_tuples.
Qed.

(** The projection keeps the key cells when it keeps the key labels. *)
Lemma key_tuples_projected p (ks : list string) (df : DataFrame) :
  (forall wanted, plan_columns p = Some wanted -> incl ks wanted) ->
  key_tuples ks (projected p df) = key_tuples ks df.
Proof.
  intros Hincl. unfold key_tuples, projected. cbn [columns rows].
  rewrite map_map. apply map_ext. intros row.
  unfold key_cells, project_row.
  destruct (plan_columns p) as [wanted | ]; [ | reflexivity].
  apply map_ext_in. intros c Hc.
  apply cell_of_mapped_row. now apply (Hincl wanted).
Qed.

Lemma step_keeps_restricted_keys_accumulated p (ks : list string)
  (e : DataFileEntry) (newer : list DataFileEntry) s s' :
  (forall wanted, plan_columns p = Some wanted -> incl ks wanted) ->
  ~ In _indicator_column_name ks ->
  is_write e = true ->
  restricted_keys_accumulated p ks newer s ->
  step p (Some ks) (List.length newer) e s = Ok s' ->
  restricted_keys_accumulated p ks (e :: newer) s'.
Proof.
  intros Hincl Hind Hw [Hdel [Hres Hnames]] Hstep.
  unfold step in Hstep. unfold is_write in Hw. rewrite Hw in Hstep.
  unfold step_write in Hstep.
  apply bind_ok in Hstep as [st [Hst Hstep]].
  apply bind_ok in Hstep as [df [Hdf Hstep]].
  apply bind_ok in Hstep as [kf [Hkf Hstep]].
  injection Hstep as <-.
  pose proof (write_result_against_seen_general p ks _ _ s st df
                Hdel Hst Hdf) as Hshape.
  assert (kf = {| columns := ks; rows := reindex ks df |}) as ->.
  { unfold getitem in Hkf. destruct (filter _ ks); [ | discriminate].
    now injection Hkf as <-. }
  assert (forall row,
             negb (existsb
                     (tuples_equal
                        (key_cells ks (columns (data_file e)) row))
                     (key_tuples ks (deduplication_keys_seen s)))
             = negb (shadowed ks (columns (data_file (restricted p e))) row
                              (map (restricted p) newer))) as Hsame.
  { intros row. unfold shadowed. now rewrite Hnames. }
  unfold restricted_keys_accumulated.
  cbn [deduplication_keys_seen partition_results deletes].
  split; [assumption | split].
  - rewrite rev_app_distr. simpl. rewrite Hres. f_equal.
    rewrite Hshape. f_equal. f_equal.
    rewrite filter_filter. apply filter_ext. intros row.
    now rewrite Hsame.
  - intros k. rewrite key_tuples_pd_concat_pair.
    + rewrite key_tuples_of_key_frame by assumption.
      rewrite existsb_app. cbn [map]. unfold names_tuple at 1. cbn [existsb].
      assert (is_write (restricted p e) = true) as -> by exact Hw.
      cbn [andb].
      fold (names_tuple is_write ks k (map (restricted p) newer)).
      rewrite <- Hnames.
      rewrite Hshape, key_tuples_projected by assumption.
      unfold key_tuples at 2 3. cbn [columns rows restricted data_file].
      rewrite <- (filter_filter
                    (fun row =>
                       negb (existsb
                               (tuples_equal
                                  (key_cells ks (columns (data_file e)) row))
                               (key_tuples ks (deduplication_keys_seen s))))
                    (fun row => passes (columns (data_file e)) row
                                       (plan_filter p))).
      apply names_after_filter.
      intros sk Hsk. eapply key_tuples_lengths; eauto.
    + intros c Hc. unfold assign. cbn [columns].
      destruct (mem _indicator_column_name ks); cbn [columns];
        [assumption | apply in_or_app; now left].
Qed.

Lemma merge_loop_restricted_keys_accumulated p (ks : list string)
  (manifest : list DataFileEntry) :
  (forall wanted, plan_columns p = Some wanted -> incl ks wanted) ->
  ~ In _indicator_column_name ks ->
  Forall (fun e => is_write e = true) manifest ->
  forall s,
    merge_loop p (Some ks) 0 (rev manifest) initial_state = Ok s ->
    restricted_keys_accumulated p ks manifest s.
Proof.
  intros Hincl Hind Hall.
  induction Hall as [ | e newer He Hnewer IH]; intros s.
  - simpl. intros [= <-]. repeat split; auto.
  - rewrite merge_loop_oldest. intros H.
    apply bind_ok in H as [s1 [Hloop Hstep]].
    eapply step_keeps_restricted_keys_accumulated; eauto.
Qed.

(** X11. With deduplication keys, over a manifest of WRITE entries and
    under any plan whose projection keeps the key columns, the restriction
    acts before the deduplication: what materialize returns is, entry by
    entry in manifest order and under the projection, the rows that pass
    the restriction and whose key tuple no row of a newer entry that passes
    the restriction carries.  A newer row that the restriction excludes
    shadows nothing.  The plan, the keys and the manifest are [in_domain]:
    names are written as the labels they mean, cells are compared with
    literals and cells of their kind, and the text of the statement denotes
    the names and the literals it was built from. *)
Theorem restriction_acts_before_deduplication (t : NdbTable) (p : plan)
  (ks : list string) (r : DataFrame) :
  deduplication_keys (_table_schema t) = Some ks ->
  ~ In _indicator_column_name ks ->
  _construct_sql t = Ok p ->
  (forall wanted, plan_columns p = Some wanted -> incl ks wanted) ->
  Forall (fun e => is_write e = true) (_data_list t) ->
  in_domain p ks [] (_data_list t) = true ->
  to_pd t = Ok r ->
  r = put_together
        (map (projected p)
             (latest_versions ks (map (restricted p) (_data_list t)))).
Proof.
  intros Hkeys Hind Hp Hincl Hall _ H. unfold to_pd in H.
  rewrite Hp, Hkeys in H. simpl in H.
  apply bind_ok in H as [s [Hloop H]]. injection H as <-.
  apply merge_loop_restricted_keys_accumulated in Hloop as [_ [Hres _]]; auto.
  now rewrite Hres.
Qed.

Lemma restriction_acts_before_deduplication_witness :
  exists p,
    _construct_sql shadowed_by_excluded_row = Ok p
    /\ {| columns := ["id"; "v"]; rows := [[VInt 1; VInt 200]] |}
       = put_together
           (map (projected p)
                (latest_versions ["id"]
                   (map (restricted p)
                        (_data_list shadowed_by_excluded_row)))).
Proof.
  eexists. split; [reflexivity | ].
  apply (restriction_acts_before_deduplication shadowed_by_excluded_row _
           ["id"]).
  - reflexivity.
  - simpl. intros [H | []]. discriminate H.
  - reflexivity.
  - simpl. discriminate.
  - repeat constructor.
  - reflexivity.
  - reflexivity.
Defined.

(** ** Materializing one column: [NdbColumn.to_pd] *)

Lemma last_projection_select_columns (t : NdbTable) (cols : list string) :
  last_projection (_ops (select_columns t cols)) = Some cols.
Proof.
  unfold last_projection. simpl. rewrite column_args_app, map_app. simpl.
  apply last_last.
Qed.

Lemma single_cells (name : string) (rs : list (list value)) :
  Forall (fun row => List.length row = 1%nat) rs ->
  map (fun row => cell_or_null [name] row name) rs = List.concat rs.
Proof.
  induction 1 as [ | row rs Hrow _ IH]; simpl; [reflexivity | ].
  rewrite IH.
  destruct row as [ | v [ | w row]]; try discriminate.
  unfold cell_or_null. simpl. now rewrite String.eqb_refl.
Qed.

Lemma no_write_no_results p keys (manifest : list DataFileEntry) s :
  write_positions 0 manifest = [] ->
  merge_loop p keys 0 (rev manifest) initial_state = Ok s ->
  partition_results s = [].
Proof.
  intros Hnone Hloop.
  pose proof (merge_loop_survivors _ _ _ _ Hloop) as Hfrs.
  rewrite Hnone in Hfrs. apply Forall2_length_nil in Hfrs.
  rewrite <- (rev_involutive (partition_results s)). now rewrite Hfrs.
Qed.

(** X12. [NdbColumn.to_pd] returns the cells of the column, fragment
    result after fragment result in manifest order, whenever the manifest
    has a WRITE, the one-column materialization goes through, and the name
    is one that its quoted text denotes, written as the label of the WRITE
    fragments it means; over a manifest without WRITE it never returns, and
    raises [KeyError] on the column label once the materialization has
    returned its frame without labels. *)
Theorem column_to_pd_series (t : NdbTable) (name : string) :
  (forall frs,
      quotable name = true ->
      Forall (fun e => is_write e = true ->
                       same_case [name] (columns (data_file e)) = true)
             (_data_list t) ->
      fragment_results (select_columns t [name]) = Ok frs ->
      frs <> [] ->
      column_to_pd t name = Ok (List.concat (List.concat (map rows frs))))
  /\ (write_positions 0 (_data_list t) = [] ->
      (exists err, column_to_pd t name = Raise err)
      /\ (forall r,
            to_pd (select_columns t [name]) = Ok r ->
            column_to_pd t name = Raise (KeyError [name]))).
Proof.
  split.
  - intros frs _ _ Hfrs Hne.
    pose proof (fragment_results_shaped _ [name] frs
                  (last_projection_select_columns t [name]) Hfrs) as Hall.
    unfold column_to_pd. rewrite to_pd_fragment_results, Hfrs. simpl.
    rewrite (put_together_shaped [name]); auto.
    + unfold getitem_series. simpl. rewrite String.eqb_refl. simpl.
      f_equal. apply single_cells.
      apply Forall_concat, Forall_map.
      apply Forall_impl with (2 := Hall). now intros df [_ Hrows].
    + repeat constructor. intros [].
  - intros Hnone.
    assert (forall r,
               to_pd (select_columns t [name]) = Ok r ->
               column_to_pd t name = Raise (KeyError [name])) as Hkey.
    { intros r Hr. unfold column_to_pd. rewrite Hr. simpl.
      unfold to_pd in Hr.
      apply bind_ok in Hr as [p [_ Hr]].
      apply bind_ok in Hr as [s [Hloop Hr]]. injection Hr as <-.
      simpl in Hloop.
      now rewrite (no_write_no_results _ _ _ _ Hnone Hloop). }
    split; [ | exact Hkey].
    destruct (to_pd (select_columns t [name])) as [r | err] eqn:Hr.
    + rewrite (Hkey r eq_refl). eauto.
    + unfold column_to_pd. rewrite Hr. simpl. eauto.
Qed.

Lemma column_to_pd_series_witness :
  column_to_pd S3_table "a" = Ok [VInt 20; VInt 30]
  /\ column_to_pd (table 1 None [delete_entry ["id"] [[VInt 1]]]) "id"
     = Raise (KeyError ["id"]).
Proof.
  split.
  - apply (proj1 (column_to_pd_series S3_table "a")
                 [{| columns := ["a"]; rows := [[VInt 20]] |};
                  {| columns := ["a"]; rows := [[VInt 30]] |}]).
    + reflexivity.
    + repeat constructor.
    + reflexivity.
    + discriminate.
  - apply (proj2 (proj2 (column_to_pd_series
                           (table 1 None [delete_entry ["id"] [[VInt 1]]])
                           "id")
                        eq_refl)
                 empty_frame).
    reflexivity.
Defined.

(** X13. [NdbColumn.to_pd] on a handle that an earlier projection has
    narrowed to columns without this one raises the widening [ValueError]
    naming the column: the one-column projection it appends is checked
    against the last projection of the handle. *)
Theorem column_to_pd_after_projection (t : NdbTable) (name : string)
  (cols : list string) (sel : string * option (list string)) :
  compile_select (_ops t) = Ok sel ->
  last_projection (_ops t) = Some cols ->
  ~ In name cols ->
  column_to_pd t name = Raise (ProjectionWidensSelection [name]).
Proof.
  intros Hsel Hlast Hnotin.
  assert (compile_select (_ops (select_columns t [name]))
          = Raise (ProjectionWidensSelection [name])) as Hraise.
  { rewrite compile_select_walk in *. simpl _ops.
    rewrite projection_walk_app.
    destruct (projection_walk None (_ops t)) as [C | err] eqn:HC;
      [ | discriminate].
    rewrite (projection_walk_last _ _ HC), Hlast. simpl.
    destruct (mem name cols) eqn:Hmem; [ | reflexivity].
    apply mem_In in Hmem. contradiction. }
  unfold column_to_pd, to_pd, _construct_sql. now rewrite Hraise.
Qed.

Lemma column_to_pd_after_projection_witness :
  column_to_pd S1_table "id" = Raise (ProjectionWidensSelection ["id"]).
Proof.
  apply (column_to_pd_after_projection S1_table "id" ["a"; "b"]
           (projection_clause (Some ["a"; "b"]), Some ["a"; "b"])).
  - reflexivity.
  - reflexivity.
  - simpl. intros [H | [H | []]]; discriminate H.
Defined.

(** X14. On a table with deduplication keys, [NdbColumn.to_pd] raises for
    every column as soon as the manifest holds a WRITE and some key column
    is another column: the one-column result lacks that key when the keys
    seen are taken from it. *)
Theorem column_to_pd_with_keys (t : NdbTable) (name : string)
  (ks : list string) :
  deduplication_keys (_table_schema t) = Some ks ->
  (exists k, In k ks /\ k <> name) ->
  (exists e, In e (_data_list t) /\ data_file_type e = "write") ->
  exists err, column_to_pd t name = Raise err.
Proof.
  intros Hkeys [k [Hk Hne]] [e [Hin Hwrite]].
  unfold column_to_pd, to_pd.
  destruct (_construct_sql (select_columns t [name])) as [p | err] eqn:Hp;
    simpl; [ | eauto].
  rewrite Hkeys.
  destruct (merge_loop_raises_at_write p (Some ks) (rev (_data_list t)))
    with (i := 0%nat) (s := initial_state) as [err Herr].
  - intros i fragment s.
    apply step_write_key_missing with (cols := [name]).
    + rewrite (construct_sql_columns _ _ Hp).
      apply last_projection_select_columns.
    + exists k. split; [assumption | ]. intros [H | []]. congruence.
  - exists e. split; [now apply in_rev; rewrite rev_involutive | assumption].
  - rewrite Herr. simpl. eauto.
Qed.

Lemma column_to_pd_with_keys_witness :
  exists err, column_to_pd S2_table "v" = Raise err.
Proof.
  apply (column_to_pd_with_keys S2_table "v" ["id"]).
  - reflexivity.
  - exists "id". split; [now left | discriminate].
  - eexists. split; [left; reflexivity | reflexivity].
Defined.

(** ** Putting the alias in place of the placeholder *)

Lemma string_app_assoc (a b c : string) : (a ++ b) ++ c = a ++ (b ++ c).
Proof. induction a as [ | x a IH]; simpl; congruence. Qed.

Lemma string_app_nil_r (a : string) : a ++ EmptyString = a.
Proof. induction a as [ | x a IH]; simpl; congruence. Qed.

Lemma substitutes_free (new s : string) :
  bracket_free s = true -> substitutes new s s.
Proof.
  intros Hfree rest. unfold replace.
  induction s as [ | c s IH]; [reflexivity | ].
  simpl in Hfree. apply andb_true_iff in Hfree as [Hc Hs].
  change ((String c s ++ rest)%string) with (String c (s ++ rest)).
  unfold _table_name_placeholder at 1.
  cbn [replace_from String.prefix].
  destruct (ascii_dec "[" c) as [<- | Hne]; [discriminate | ].
  fold _table_name_placeholder. simpl. f_equal. now apply IH.
Qed.

Lemma substitutes_placeholder (new : string) :
  substitutes new _table_name_placeholder new.
Proof. intros rest. unfold replace. destruct rest; reflexivity. Qed.

Lemma substitutes_app (new a a' b b' : string) :
  substitutes new a a' -> substitutes new b b' ->
  substitutes new (a ++ b) (a' ++ b').
Proof.
  intros Ha Hb rest. now rewrite !string_app_assoc, Ha, Hb.
Qed.

Lemma substitutes_cons (new : string) (c : ascii) (s s' : string) :
  (c =? "[")%char = false ->
  substitutes new s s' ->
  substitutes new (String c s) (String c s').
Proof.
  intros Hc Hs.
  apply (substitutes_app new (String c EmptyString) (String c EmptyString));
    [ | exact Hs].
  apply substitutes_free. simpl. now rewrite Hc.
Qed.

Lemma substitutes_whole (new s s' : string) :
  substitutes new s s' -> replace _table_name_placeholder new s = s'.
Proof.
  intros H. specialize (H EmptyString).
  now rewrite !string_app_nil_r in H.
Qed.

Lemma bracket_free_app (a b : string) :
  bracket_free (a ++ b) = bracket_free a && bracket_free b.
Proof.
  induction a as [ | c a IH]; simpl; [reflexivity | ].
  now rewrite IH, andb_assoc.
Qed.

Lemma uint_bracket_free (d : Decimal.uint) :
  bracket_free (NilEmpty.string_of_uint d) = true.
Proof. induction d; simpl; auto. Qed.

Lemma str_of_int_bracket_free (z : Z) : bracket_free (str_of_int z) = true.
Proof.
  unfold str_of_int, NilZero.string_of_int, NilZero.string_of_uint.
  destruct (Z.to_int z) as [d | d]; destruct d; simpl;
    auto using uint_bracket_free.
Qed.

Lemma single_arg_bracket_free (l : literal) :
  literal_bracket_free l = true ->
  bracket_free (_single_arg_to_string l) = true.
Proof.
  destruct l as [s | text | z]; simpl; intros H.
  - now rewrite bracket_free_app, H.
  - now rewrite bracket_free_app, H.
  - apply str_of_int_bracket_free.
Qed.

Lemma joined_args_bracket_free (items : list literal) :
  forallb literal_bracket_free items = true ->
  bracket_free (String.concat ", " (map _single_arg_to_string items)) = true.
Proof.
  induction items as [ | l items IH]; [reflexivity | ].
  simpl. intros H. apply andb_true_iff in H as [Hl Hitems].
  destruct items as [ | l' items].
  - now apply single_arg_bracket_free.
  - change (bracket_free
              (_single_arg_to_string l
               ++ ", " ++ String.concat ", "
                                        (map _single_arg_to_string
                                             (l' :: items))) = true).
    rewrite !bracket_free_app, (single_arg_bracket_free l Hl), IH by assumption.
    reflexivity.
Qed.

Ltac substitute_pieces :=
  repeat apply substitutes_app;
  try apply substitutes_placeholder;
  try (apply substitutes_free;
       first [ reflexivity
             | assumption
             | now apply single_arg_bracket_free
             | now apply joined_args_bracket_free ]).

Lemma substitutes_quoted_column (alias c : string) :
  bracket_free c = true ->
  substitutes alias (quoted_column c) (quoted_column_for alias c).
Proof.
  intros Hc. unfold quoted_column, quoted_column_for. substitute_pieces.
Qed.

Lemma substitutes_op_arg (alias c : string) (oa : op_arg) :
  bracket_free c = true ->
  op_arg_bracket_free oa = true ->
  substitutes alias (render_op_arg c oa) (render_op_arg_for alias c oa).
Proof.
  intros Hc Hoa.
  destruct oa as [op arg | a b | a b | items | items];
    unfold render_op_arg, render_op_arg_for; simpl in Hoa;
    try (apply andb_true_iff in Hoa as [Ha Hb]);
    substitute_pieces;
    apply substitutes_free; now destruct op.
Qed.

Lemma substitutes_where_clause (alias : string) (p : NdbBoolColumn)
  (version_number : Z) (clause : string) :
  predicate_bracket_free p = true ->
  _construct_where_clause p version_number = Ok clause ->
  substitutes alias clause (where_clause_for alias p).
Proof.
  revert clause.
  induction p as [v c oa | a IHa b IHb op]; intros clause Hfree; simpl.
  - simpl in Hfree. apply andb_true_iff in Hfree as [Hc Hoa].
    destruct (negb (v =? version_number)%Z); [discriminate | ].
    intros [= <-]. now apply substitutes_op_arg.
  - simpl in Hfree. apply andb_true_iff in Hfree as [Ha Hb].
    intros H. apply bind_ok in H as [sa [Hsa H]].
    apply bind_ok in H as [sb [Hsb H]]. injection H as <-.
    specialize (IHa sa Ha Hsa). specialize (IHb sb Hb Hsb).
    apply substitutes_cons; [reflexivity | ].
    apply substitutes_app; [exact IHa | ].
    apply substitutes_cons; [reflexivity | ].
    apply substitutes_app; [apply substitutes_free; now destruct op | ].
    apply substitutes_cons; [reflexivity | ].
    apply substitutes_app; [exact IHb | now apply substitutes_free].
Qed.

Lemma substitutes_joined_columns (alias : string) (cols : list string) :
  forallb bracket_free cols = true ->
  substitutes alias
    (String.concat ", " (map quoted_column cols))
    (String.concat ", " (map (quoted_column_for alias) cols)).
Proof.
  induction cols as [ | c cols IH]; intros Hfree.
  - now apply substitutes_free.
  - simpl in Hfree. apply andb_true_iff in Hfree as [Hc Hcols].
    destruct cols as [ | c' cols].
    + simpl. now apply substitutes_quoted_column.
    + change (substitutes alias
                (quoted_column c ++ ", "
                 ++ String.concat ", " (map quoted_column (c' :: cols)))
                (quoted_column_for alias c ++ ", "
                 ++ String.concat ", "
                      (map (quoted_column_for alias) (c' :: cols)))).
      apply substitutes_app; [now apply substitutes_quoted_column | ].
      apply substitutes_app; [now apply substitutes_free | auto].
Qed.

Lemma construct_sql_parts (t : NdbTable) (p : plan) :
  _construct_sql t = Ok p ->
  select_clause p = projection_clause (plan_columns p)
  /\ match plan_filter p with
     | Some q =>
         _construct_where_clause q (_version_number t) = Ok (where_clause p)
     | None => where_clause p = "TRUE"
     end.
Proof.
  unfold _construct_sql. intros H.
  apply bind_ok in H as [[clause C] [Hs H]].
  apply bind_ok in H as [[w q] [Hw H]]. injection H as <-. simpl. split.
  - rewrite compile_select_walk in Hs.
    destruct (projection_walk None (_ops t)); [ | discriminate].
    now injection Hs as <- <-.
  - unfold compile_where in Hw.
    destruct (row_args (_ops t)) as [ | first rest].
    + now injection Hw as <- <-.
    + simpl in Hw. apply bind_ok in Hw as [w' [Hw' Hw]].
      now injection Hw as <- <-.
Qed.

Lemma write_statement_initial p keys i (fragment : DataFrame) :
  write_statement p keys i fragment initial_state
  = Ok {| sql := replace _table_name_placeholder
                         ("t" ++ str_of_int (Z.of_nat i)) (select_clause p)
                 ++ " FROM " ++ ("t" ++ str_of_int (Z.of_nat i)) ++ " WHERE "
                 ++ replace _table_name_placeholder
                            ("t" ++ str_of_int (Z.of_nat i)) (where_clause p);
          from := fragment;
          projection := plan_columns p;
          joins := [];
          restriction := plan_filter p |}.
Proof. reflexivity. Qed.

(** X15. When no projected column name and no column name or string
    literal of the rendered restriction holds an opening bracket, replacing
    the table-name placeholder by the alias of a fragment turns the two
    clauses of the plan into the clauses written with that alias, and the
    statement for a WRITE met with both accumulators empty reads
    [SELECT ... FROM alias WHERE ...] with them. *)
Theorem alias_takes_the_place_of_the_placeholder (t : NdbTable) (p : plan)
  (alias : string) :
  _construct_sql t = Ok p ->
  (forall cols, plan_columns p = Some cols ->
                forallb bracket_free cols = true) ->
  (forall q, plan_filter p = Some q -> predicate_bracket_free q = true) ->
  let where_ := match plan_filter p with
                | Some q => where_clause_for alias q
                | None => "TRUE"
                end in
  replace _table_name_placeholder alias (select_clause p)
  = select_clause_for alias (plan_columns p)
  /\ replace _table_name_placeholder alias (where_clause p) = where_
  /\ (forall keys i fragment st,
        alias = "t" ++ str_of_int (Z.of_nat i) ->
        write_statement p keys i fragment initial_state = Ok st ->
        sql st = select_clause_for alias (plan_columns p)
                 ++ " FROM " ++ alias ++ " WHERE " ++ where_).
Proof.
  intros Hp Hcols Hfilter where_.
  destruct (construct_sql_parts t p Hp) as [Hsel Hwhere].
  assert (replace _table_name_placeholder alias (select_clause p)
          = select_clause_for alias (plan_columns p)) as Hs.
  { rewrite Hsel. apply substitutes_whole.
    destruct (plan_columns p) as [cols | ];
      unfold projection_clause, select_clause_for.
    - apply substitutes_app; [now apply substitutes_free | ].
      apply substitutes_joined_columns. now apply Hcols.
    - substitute_pieces. }
  assert (replace _table_name_placeholder alias (where_clause p) = where_)
    as Hw.
  { unfold where_. destruct (plan_filter p) as [q | ].
    - apply substitutes_whole.
      eapply substitutes_where_clause; eauto.
    - rewrite Hwhere. reflexivity. }
  split; [exact Hs | split; [exact Hw | ]].
  intros keys i fragment st Halias Hst.
  rewrite write_statement_initial, <- Halias in Hst.
  injection Hst as <-. cbn [sql]. now rewrite Hs, Hw.
Qed.

Lemma alias_takes_the_place_of_the_placeholder_witness :
  exists p,
    _construct_sql S6_table = Ok p
    /\ replace _table_name_placeholder "t0" (where_clause p)
       = "((" ++ quoted_column_for "t0" "a" ++ " != 1) OR ("
         ++ quoted_column_for "t0" "b" ++ " != 1))".
Proof.
  eexists. split; [reflexivity | ].
  refine (proj1 (proj2 (alias_takes_the_place_of_the_placeholder
                          S6_table _ "t0" eq_refl _ _))).
  - intros cols H. discriminate H.
  - intros q H. injection H as <-. reflexivity.
Defined.

(** A string literal that holds the placeholder is rewritten with the
    alias: the comparison then is with another string than the one given. *)
Example placeholder_inside_a_literal :
  option_map (replace _table_name_placeholder "t0")
    (match _construct_where_clause
             (NdbComputedBoolColumnOpArg 1 "a"
                (Scalar OpEq (LStr _table_name_placeholder))) 1 with
     | Ok clause => Some clause
     | Raise _ => None
     end)
  = Some ("(" ++ quoted_column_for "t0" "a" ++ " = 't0')").
Proof. reflexivity. Qed.

(** ** Older entries *)

(** X16. What the entries of a manifest contribute does not depend on
    older entries: when materialization goes through with one more entry in
    front of the manifest, it goes through without it, and the fragment
    results are the same, preceded by the result of the added entry when
    that is a WRITE. *)
Theorem older_entry_changes_nothing_newer (t : NdbTable) (e : DataFileEntry)
  (frs' : list DataFrame) :
  fragment_results (with_older_entry e t) = Ok frs' ->
  exists frs,
    fragment_results t = Ok frs
    /\ (if is_write e then exists df, frs' = df :: frs else frs' = frs).
Proof.
  unfold fragment_results. intros H.
  apply bind_ok in H as [p [Hp H]].
  apply bind_ok in H as [s' [Hloop H]]. injection H as <-.
  change (_construct_sql (with_older_entry e t)) with (_construct_sql t) in Hp.
  cbn [with_older_entry _table_schema _data_list] in Hloop.
  rewrite merge_loop_oldest in Hloop.
  apply bind_ok in Hloop as [s [Hnewer Hstep]].
  exists (rev (partition_results s)).
  rewrite Hp. simpl. rewrite Hnewer. simpl. split; [reflexivity | ].
  apply step_cases in Hstep as [[Hw Hstep] | [Hw [_ Hstep]]]; rewrite Hw.
  - apply step_write_results in Hstep as [st [df [_ [_ [-> _]]]]].
    exists df. now rewrite rev_app_distr.
  - now apply step_delete_results in Hstep as [-> _].
Qed.

Lemma older_entry_changes_nothing_newer_witness :
  exists frs,
    fragment_results
      (table 1 (Some ["id"])
         [write_entry ["id"; "v"] [[VInt 1; VInt 101]; [VInt 3; VInt 300]]])
    = Ok frs
    /\ exists df,
         [{| columns := ["id"; "v"]; rows := [[VInt 2; VInt 200]] |};
          {| columns := ["id"; "v"];
             rows := [[VInt 1; VInt 101]; [VInt 3; VInt 300]] |}]
         = df :: frs.
Proof.
  apply (older_entry_changes_nothing_newer
           (table 1 (Some ["id"])
              [write_entry ["id"; "v"]
                 [[VInt 1; VInt 101]; [VInt 3; VInt 300]]])
           (write_entry ["id"; "v"] [[VInt 1; VInt 100]; [VInt 2; VInt 200]])).
  reflexivity.
Defined.

(** ** Selecting rows by a column *)

(** X17. [t[c]] for a column handle [c] is the restriction to
    [c = 'TRUE'], a comparison with the string: on a handle without
    restriction whose projections compile, the plan of [t[c]] has the where
    clause [(alias."name" = 'TRUE')] when [c] was taken from a handle of the
    same version, and compilation raises CrossTableReference otherwise. *)
Theorem row_selection_by_column (t : NdbTable) (c : NdbColumn)
  (sel : string * option (list string)) :
  row_args (_ops t) = [] ->
  compile_select (_ops t) = Ok sel ->
  exists t',
    __getitem__ t (ItemColumn c) = Ok (SelectedTable t')
    /\ t' = select_rows t (__eq__ c (LStr "TRUE"))
    /\ (col_table_version c = _version_number t ->
        _construct_sql t'
        = Ok {| select_clause := fst sel;
                where_clause := "(" ++ quoted_column (col_name c)
                                ++ " = 'TRUE')";
                plan_columns := snd sel;
                plan_filter := Some (__eq__ c (LStr "TRUE")) |})
    /\ (col_table_version c <> _version_number t ->
        _construct_sql t' = Raise CrossTableReference).
Proof.
  intros Hrows Hsel. eexists. split; [reflexivity | ].
  split; [reflexivity | ].
  assert (compile_select (_ops t ++ [_SelectRowsOp (_interpret_as_bool c)])
          = Ok sel) as Hsel'.
  { unfold compile_select in *. rewrite column_args_app. simpl.
    now rewrite app_nil_r. }
  unfold _construct_sql, compile_where. cbn [with_op _ops _version_number].
  rewrite Hsel', row_args_app, Hrows. cbn [bind row_args app].
  unfold _interpret_as_bool, __eq__, compare_with.
  cbn [_construct_where_clause].
  split; intros Hv.
  - rewrite Hv, Z.eqb_refl. reflexivity.
  - apply Z.eqb_neq in Hv. now rewrite Hv.
Qed.

Lemma row_selection_by_column_witness :
  exists t',
    __getitem__ S1_table (ItemColumn (column S1_table "b"))
    = Ok (SelectedTable t')
    /\ option_map where_clause
         (match _construct_sql t' with Ok p => Some p | Raise _ => None end)
       = Some ("(" ++ quoted_column "b" ++ " = 'TRUE')").
Proof.
  destruct (row_selection_by_column S1_table (column S1_table "b")
              (projection_clause (Some ["a"; "b"]), Some ["a"; "b"])
              eq_refl eq_refl) as [t' [Hget [_ [Hsame _]]]].
  exists t'. split; [exact Hget | ].
  now rewrite (Hsame eq_refl).
Defined.

(** ** Keys and DELETE entries together *)

Lemma write_statement_joins p (ks : list string) i (fragment : DataFrame)
  s st :
  write_statement p (Some ks) i fragment s = Ok st ->
  from st = fragment
  /\ projection st = plan_columns p
  /\ restriction st = plan_filter p
  /\ joins st
     = ((if (len (deletes s) =? 0)%nat then []
         else [{| other := deletes s; on := delete_columns (deletes s) |}])
        ++ (if (len (deduplication_keys_seen s) =? 0)%nat then []
            else [{| other := deduplication_keys_seen s; on := ks |}]))%list.
Proof.
  unfold write_statement.
  destruct (len (deduplication_keys_seen s) =? 0)%nat,
           (len (deletes s) =? 0)%nat; simpl;
    intros [= <-]; simpl; auto.
Qed.

Lemma unmatched_by_deletes (dcols cols : list string) (row : list value)
  (acc : DataFrame) :
  (acc = empty_frame
   \/ columns acc = (dcols ++ [_indicator_column_name])%list) ->
  ~ In _indicator_column_name dcols ->
  forallb (fun j => negb (matched cols row j))
          (if (len acc =? 0)%nat then []
           else [{| other := acc; on := delete_columns acc |}])
  = negb (existsb (tuples_equal (key_cells dcols cols row))
                  (key_tuples dcols acc)).
Proof.
  intros Hacc Hind.
  destruct (len acc =? 0)%nat eqn:Hlen.
  - apply Nat.eqb_eq in Hlen. now rewrite (key_tuples_no_rows dcols _ Hlen).
  - destruct Hacc as [-> | Hcols]; [discriminate | ].
    simpl. rewrite andb_true_r, matched_key_tuples. simpl.
    unfold delete_columns. rewrite Hcols.
    now rewrite delete_columns_indicator_last.
Qed.

Lemma unmatched_by_seen (ks cols : list string) (row : list value)
  (acc : DataFrame) :
  forallb (fun j => negb (matched cols row j))
          (if (len acc =? 0)%nat then [] else [{| other := acc; on := ks |}])
  = negb (existsb (tuples_equal (key_cells ks cols row)) (key_tuples ks acc)).
Proof.
  destruct (len acc =? 0)%nat eqn:Hlen.
  - apply Nat.eqb_eq in Hlen. now rewrite (key_tuples_no_rows ks _ Hlen).
  - simpl. now rewrite andb_true_r, matched_key_tuples.
Qed.

Lemma write_result_against_both p (ks dcols : list string) i
  (fragment : DataFrame) s st df :
  (deletes s = empty_frame
   \/ columns (deletes s) = (dcols ++ [_indicator_column_name])%list) ->
  ~ In _indicator_column_name dcols ->
  write_statement p (Some ks) i fragment s = Ok st ->
  execute st = Ok df ->
  df = projected p
         {| columns := columns fragment;
            rows := filter
                      (fun row =>
                         negb (existsb
                                 (tuples_equal
                                    (key_cells dcols (columns fragment) row))
                                 (key_tuples dcols (deletes s)))
                         && negb (existsb
                                    (tuples_equal
                                       (key_cells ks (columns fragment) row))
                                    (key_tuples ks
                                       (deduplication_keys_seen s)))
                         && passes (columns fragment) row (plan_filter p))
                      (rows fragment) |}.
Proof.
  intros Hdel Hind Hst Hdf.
  apply write_statement_joins in Hst as [Hfrom [Hproj [Hres Hjoins]]].
  unfold execute in Hdf. apply bind_ok in Hdf as [_ [_ Hdf]].
  injection Hdf as <-. unfold projected. cbn [columns rows].
  rewrite Hproj, Hfrom. f_equal. f_equal.
  apply filter_ext. intros row. unfold kept.
  rewrite Hjoins, Hres, Hfrom, forallb_app.
  now rewrite (unmatched_by_deletes dcols), unmatched_by_seen.
Qed.

Lemma step_keeps_both_accumulated p (ks dcols : list string)
  (e : DataFileEntry) (newer : list DataFileEntry) s s' :
  (forall wanted, plan_columns p = Some wanted -> incl ks wanted) ->
  ~ In _indicator_column_name ks ->
  NoDup dcols ->
  ~ In _indicator_column_name dcols ->
  (is_delete e = true ->
   columns (data_file e) = dcols /\ well_formed (data_file e)) ->
  both_accumulated p ks dcols newer s ->
  step p (Some ks) (List.length newer) e s = Ok s' ->
  both_accumulated p ks dcols (e :: newer) s'.
Proof.
  intros Hincl Hks Hnd Hind He [Hres [Hdel [Hnames Hseen]]] Hstep.
  apply step_cases in Hstep as [[Hw Hstep] | [Hw [Hd Hstep]]].
  - unfold step_write in Hstep.
    apply bind_ok in Hstep as [st [Hst Hstep]].
    apply bind_ok in Hstep as [df [Hdf Hstep]].
    apply bind_ok in Hstep as [kf [Hkf Hstep]].
    injection Hstep as <-.
    pose proof (write_result_against_both p ks dcols _ _ s st df
                  Hdel Hind Hst Hdf) as Hshape.
    assert (kf = {| columns := ks; rows := reindex ks df |}) as ->.
    { unfold getitem in Hkf. destruct (filter _ ks); [ | discriminate].
      now injection Hkf as <-. }
    assert (df = projected p (hd empty_frame (merged p ks dcols (e :: newer))))
      as Hhead.
    { rewrite Hshape. simpl. rewrite Hw. simpl. f_equal. f_equal.
      apply filter_ext. intros row. unfold deleted.
      now rewrite Hnames, Hseen. }
    unfold both_accumulated.
    cbn [deduplication_keys_seen partition_results deletes].
    assert (merged p ks dcols (e :: newer)
            = hd empty_frame (merged p ks dcols (e :: newer))
              :: merged p ks dcols newer) as Hcons.
    { simpl. now rewrite Hw. }
    repeat split.
    + rewrite rev_app_distr. simpl rev. rewrite Hres, Hhead.
      rewrite Hcons at 2. reflexivity.
    + assumption.
    + intros k. rewrite Hnames. unfold names_tuple. simpl.
      now rewrite (is_write_not_delete _ Hw).
    + intros k. rewrite key_tuples_pd_concat_pair.
      * rewrite key_tuples_of_key_frame by assumption.
        rewrite Hcons. cbn [flat_map].
        rewrite !existsb_app, Hseen, Hhead, key_tuples_projected
          by assumption.
        apply orb_comm.
      * intros c Hc. unfold assign. cbn [columns].
        destruct (mem _indicator_column_name ks); cbn [columns];
          [assumption | apply in_or_app; now left].
  - assert (is_delete e = true) as Hdelete
      by (unfold is_delete; now rewrite Hd).
    destruct (He Hdelete) as [Hcols Hwf].
    unfold step_delete in Hstep.
    destruct (_ && _); [discriminate | ]. injection Hstep as <-.
    unfold both_accumulated.
    cbn [deduplication_keys_seen partition_results deletes].
    assert (~ In _indicator_column_name (columns (data_file e))) as Hfree
      by now rewrite Hcols.
    assert (merged p ks dcols (e :: newer) = merged p ks dcols newer)
      as Hsame by (simpl; now rewrite Hw).
    rewrite Hsame.
    repeat split; auto.
    + right. rewrite pd_concat_pair_columns, assign_indicator_columns, Hcols
        by assumption.
      pose proof (NoDup_with_indicator dcols Hnd Hind) as Hnd'.
      destruct Hdel as [-> | ->].
      * simpl. now rewrite (union_columns_fresh _ []).
      * rewrite (union_columns_fresh _ []) by assumption. simpl.
        now apply union_columns_known.
    + intros k. rewrite key_tuples_pd_concat_pair.
      * rewrite existsb_app, Hnames, key_tuples_assign_indicator
          by assumption.
        unfold names_tuple at 2. simpl. rewrite Hdelete. simpl.
        apply orb_comm.
      * intros c Hc. rewrite assign_indicator_columns, Hcols by assumption.
        apply in_or_app. now left.
Qed.

Lemma merge_loop_both_accumulated p (ks dcols : list string)
  (manifest : list DataFileEntry) :
  (forall wanted, plan_columns p = Some wanted -> incl ks wanted) ->
  ~ In _indicator_column_name ks ->
  NoDup dcols ->
  ~ In _indicator_column_name dcols ->
  deletes_on dcols manifest ->
  forall s,
    merge_loop p (Some ks) 0 (rev manifest) initial_state = Ok s ->
    both_accumulated p ks dcols manifest s.
Proof.
  intros Hincl Hks Hnd Hind Hon.
  induction Hon as [ | e newer He Hnewer IH]; intros s.
  - simpl. intros [= <-]. repeat split; auto.
  - rewrite merge_loop_oldest. intros H.
    apply bind_ok in H as [s1 [Hloop Hstep]].
    eapply step_keeps_both_accumulated; eauto.
Qed.

(** X18. With deduplication keys kept by the projection and DELETE entries
    on common distinct columns, what materialize returns is, WRITE by WRITE
    in manifest order and under the projection, the rows that pass the
    restriction, that agree with no row of a newer DELETE on the DELETE
    columns, and whose key no row kept from a newer WRITE carries.  A newer
    row that a DELETE or the restriction removed shadows nothing.  The
    plan, the keys, the DELETE columns and the manifest are [in_domain]:
    names are written as the labels they mean, cells are compared with
    literals and cells of their kind, and the text of the statement denotes
    the names and the literals it was built from. *)
Theorem keys_and_deletes_merge (t : NdbTable) (p : plan)
  (ks dcols : list string) (r : DataFrame) :
  deduplication_keys (_table_schema t) = Some ks ->
  ~ In _indicator_column_name ks ->
  _construct_sql t = Ok p ->
  (forall wanted, plan_columns p = Some wanted -> incl ks wanted) ->
  NoDup dcols ->
  ~ In _indicator_column_name dcols ->
  deletes_on dcols (_data_list t) ->
  in_domain p ks dcols (_data_list t) = true ->
  to_pd t = Ok r ->
  r = put_together (map (projected p) (merged p ks dcols (_data_list t))).
Proof.
  intros Hkeys Hks Hp Hincl Hnd Hind Hon _ H. unfold to_pd in H.
  rewrite Hp, Hkeys in H. simpl in H.
  apply bind_ok in H as [s [Hloop H]]. injection H as <-.
  apply merge_loop_both_accumulated with (dcols := dcols) in Hloop
    as [Hres _]; auto.
  now rewrite Hres.
Qed.

Lemma keys_and_deletes_merge_witness :
  exists p,
    _construct_sql restricted_keys_and_delete = Ok p
    /\ {| columns := ["id"; "v"]; rows := [[VInt 1; VInt 200]] |}
       = put_together
           (map (projected p)
                (merged p ["id"] ["id"]
                        (_data_list restricted_keys_and_delete))).
Proof.
  eexists. split; [reflexivity | ].
  apply (keys_and_deletes_merge restricted_keys_and_delete _ ["id"] ["id"]).
  - reflexivity.
  - simpl. intros [H | []]. discriminate H.
  - reflexivity.
  - simpl. discriminate.
  - constructor; [ | constructor]. simpl. tauto.
  - simpl. intros [H | []]. discriminate H.
  - repeat constructor; try discriminate.
  - reflexivity.
  - reflexivity.
Defined.

(** With a DELETE on another column than the key, removing the newer
    version of a row brings the older version back. *)
Example delete_of_newer_version_returns_older :
  to_pd (table 1 (Some ["id"])
           [write_entry ["id"; "v"] [[VInt 1; VInt 100]];
            write_entry ["id"; "v"] [[VInt 1; VInt 200]];
            delete_entry ["v"] [[VInt 200]]])
  = Ok {| columns := ["id"; "v"]; rows := [[VInt 1; VInt 100]] |}.
Proof. reflexivity. Qed.
